(** * Half-duplex WebSocket reverse proxy: model and properties

    A shallow embedding of [pkg/half-duplex/half-duplex-backend-proxy.go].
    Go maps ([http.Header], the heap of [*url.URL] objects) are finite maps,
    byte slices and Go strings are [string]s, calls into the HTTP server and
    the WebSocket transport are recorded as events, and what those
    collaborators answer is supplied by the caller of each function. *)

From Stdlib Require Import ZArith Ascii String List.
From Stdlib Require Import DecimalString DecimalPos DecimalZ.
From stdpp Require Import gmap strings list fin_maps.
Import ListNotations.

Local Open Scope string_scope.
Local Open Scope Z_scope.

(** ** HTTP header sets ([net/http.Header], a [map[string][]string]) *)

Abbreviation header := (gmap string (list string)).

(** [net/textproto]: the bytes allowed in a header field name. *)
Definition validHeaderFieldByte (c : ascii) : bool :=
  let n := N_of_ascii c in
  ((48 <=? n) && (n <=? 57))%N || ((65 <=? n) && (n <=? 90))%N ||
  ((97 <=? n) && (n <=? 122))%N ||
  existsb (N.eqb n) [33; 35; 36; 37; 38; 39; 42; 43; 45; 46; 94; 95; 96; 124; 126]%N.

Definition isLower (c : ascii) : bool :=
  let n := N_of_ascii c in ((97 <=? n) && (n <=? 122))%N.

Definition isUpper (c : ascii) : bool :=
  let n := N_of_ascii c in ((65 <=? n) && (n <=? 90))%N.

Definition toLower : N := 32.

Fixpoint allValid (s : string) : bool :=
  match s with
  | EmptyString => true
  | String c s' => validHeaderFieldByte c && allValid s'
  end.

(** First letter and every letter after a dash in upper case, the rest in
    lower case. *)
Fixpoint canonicalCase (upper : bool) (s : string) : string :=
  match s with
  | EmptyString => EmptyString
  | String c s' =>
      let c' :=
        if upper && isLower c then ascii_of_N (N_of_ascii c - toLower)
        else if negb upper && isUpper c then ascii_of_N (N_of_ascii c + toLower)
        else c in
      String c' (canonicalCase (Ascii.eqb c' "-") s')
  end.

(** [http.CanonicalHeaderKey]: a key holding a byte that is not allowed in a
    field name is returned as it is. *)
Definition CanonicalHeaderKey (s : string) : string :=
  if allValid s then canonicalCase true s else s.

Definition Get (h : header) (key : string) : string :=
  match h !! CanonicalHeaderKey key with
  | Some (v :: _) => v
  | _ => ""
  end.

Definition Set_ (h : header) (key value : string) : header :=
  <[CanonicalHeaderKey key := [value]]> h.

Definition Add (h : header) (key value : string) : header :=
  let k := CanonicalHeaderKey key in
  <[k := (default [] (h !! k) ++ [value])%list]> h.

Definition Del (h : header) (key : string) : header :=
  delete (CanonicalHeaderKey key) h.

(** [h.Clone()]: maps are values here, the copy is the map itself. *)
Definition Clone (h : header) : header := h.

(** [h[key]], the direct map index (no canonicalisation). *)
Definition Index (h : header) (key : string) : list string :=
  default [] (h !! key).

(** ** URLs, requests and responses *)

Module url.
(** [net/url.URL]; the proxy only ever holds it behind a pointer. *)
Record URL := mk {
  Scheme : string;
  Opaque : string;
  User : option string;
  Host : string;
  Path : string;
  RawPath : string;
  ForceQuery : bool;
  RawQuery : string;
  Fragment : string;
  RawFragment : string
}.
End url.

(** The heap of [url.URL] objects; a [*url.URL] is [Some] address or [None]
    for [nil]. *)
Abbreviation heap := (gmap nat url.URL).
Abbreviation urlPtr := (option nat).

Module Request.
(** The parts of [*http.Request] the handler reads. [SplitHostPort] is
    the host that [net.SplitHostPort(req.RemoteAddr)] yields, [None] when
    that call fails; [TLS] tells whether [req.TLS] is non-nil. The header
    map of a request served by [net/http] is never nil. *)
Record t := mk {
  URL : url.URL;
  Header : header;
  Host : string;
  SplitHostPort : option string;
  TLS : bool
}.
End Request.

Module Response.
(** [*http.Response] as handed back by the dialer. *)
Record t := mk {
  StatusCode : Z;
  Header : header;
  Body : string
}.
End Response.

(** ** The WebSocket transport, as the proxy sees it *)

Definition TextMessage : Z := 1.
Definition BinaryMessage : Z := 2.
Definition CloseMessage : Z := 8.
Definition PingMessage : Z := 9.
Definition PongMessage : Z := 10.

Definition CloseNormalClosure : Z := 1000.
Definition CloseNoStatusReceived : Z := 1005.
Definition CloseAbnormalClosure : Z := 1006.

Definition StatusInternalServerError : Z := 500.
Definition StatusServiceUnavailable : Z := 503.

(** What the code can tell about the dynamic type of an [error]. *)
Inductive errorType :=
  | CloseError (Code : Z) (Text : string)   (* [*websocket.CloseError] *)
  | ErrCloseSent                            (* [websocket.ErrCloseSent] *)
  | NetError (Temporary : bool)             (* a [net.Error] *)
  | OtherError.

(** An error value: its dynamic type and the text of its [Error()] method,
    which is what [fmt.Sprintf("%v", err)] prints. *)
Record error := mkError { dynType : errorType; Error : string }.

(** The two connections of a session. *)
Inductive Conn := connPub | connBackend.

(** The bytes handed to [WriteMessage]: a byte slice, or the result of
    [websocket.FormatCloseMessage(closeCode, text)], kept as the call. *)
Inductive payload :=
  | Bytes (b : string)
  | FormatCloseMessage (closeCode : Z) (text : string).

Inductive readResult :=
  | ReadOk (msgType : Z) (msg : string)
  | ReadErr (err : error).

(** The two single-slot error channels of [ServeHTTP]. *)
Inductive errChan := errClient | errBackend.

(** Calls that leave the proxy, in program order. Logging is not recorded. *)
Inductive event :=
  | ReadMessage (src : Conn) (r : readResult)
  | WriteMessage (dst : Conn) (msgType : Z) (data : payload)
  | WriteControl (dst : Conn) (msgType : Z) (data : string) (deadline : Z)
  | Send (errc : errChan) (err : error)
  | HandleMessage (msg : string)
  | Close (c : Conn)
  | HttpError (msg : string) (code : Z)
  | Dial (custom : bool) (u : url.URL) (requestHeader : header)
  | Upgrade (custom : bool) (upgradeHeader : option header)
  | SetPingHandler
  | RemoveConnection (id : string).

#[global] Instance errorType_eq_dec : EqDecision errorType.
Proof. solve_decision. Defined.
#[global] Instance error_eq_dec : EqDecision error.
Proof. solve_decision. Defined.
#[global] Instance Conn_eq_dec : EqDecision Conn.
Proof. solve_decision. Defined.
#[global] Instance payload_eq_dec : EqDecision payload.
Proof. solve_decision. Defined.
#[global] Instance readResult_eq_dec : EqDecision readResult.
Proof. solve_decision. Defined.
#[global] Instance errChan_eq_dec : EqDecision errChan.
Proof. solve_decision. Defined.

(** ** The relay loops *)

(** What one turn of a relay loop meets. [StopReady]: the stop channel is
    ready, so [select] takes that case. [Default r w]: it is not, the loop
    reads and gets [r]; [w] is the result of the [dst.WriteMessage(msgType,
    msg)] of the forward loop after a successful read. [Taken]: meanwhile the
    handler's [select] has received the error waiting in [errc]. A send that
    finds [errc] full parks the goroutine; the run in which the handler
    frees the slot is the one with [Taken] ahead of that turn. *)
Inductive tick :=
  | StopReady
  | Default (r : readResult) (w : option error)
  | Taken.

(** How the observed part of a run ends: [Returned] from the stop case,
    [Exited] through [doExit], [Parked] in a send on the full error
    channel, or [Running], still looping when the script ends. *)
Inductive outcome := Returned | Exited | Parked | Running.

(** The close frame built after a failed read. *)
Definition closeMessage (err : error) : payload :=
  let m := FormatCloseMessage CloseNormalClosure (Error err) in
  match dynType err with
  | CloseError Code Text =>
      if negb (Code =? CloseNoStatusReceived) then FormatCloseMessage Code Text
      else m
  | _ => m
  end.

Arguments closeMessage : simpl never.

Record run := mkRun { trace : list event; errcBuf : list error; final : outcome }.

Definition emit (evs : list event) (r : run) : run :=
  mkRun (evs ++ trace r)%list (errcBuf r) (final r).

(** The forward loop, client to backend. [buf] is the content of [errc], a
    channel of capacity one. A [break] inside [select] leaves the [select]
    only; the loop itself ends through [return] or through [doExit]. *)
Fixpoint replicateWebsocketProxyToServer (dst src : Conn) (errc : errChan)
    (script : list tick) (buf : list error) : run :=
  match script with
  | [] => mkRun [] buf Running
  | Taken :: rest =>
      replicateWebsocketProxyToServer dst src errc rest (tail buf)
  | StopReady :: _ =>
      mkRun [WriteMessage dst CloseMessage (Bytes "Closed by proxy")] buf Returned
  | Default (ReadErr err) _ :: rest =>
      let m := closeMessage err in
      match buf with
      | [] =>
          emit [ReadMessage src (ReadErr err); Send errc err;
                WriteMessage dst CloseMessage m]
            (replicateWebsocketProxyToServer dst src errc rest [err])
      | _ :: _ => mkRun [ReadMessage src (ReadErr err)] buf Parked
      end
  | Default (ReadOk msgType msg) w :: rest =>
      match w with
      | None =>
          emit [ReadMessage src (ReadOk msgType msg);
                WriteMessage dst msgType (Bytes msg)]
            (replicateWebsocketProxyToServer dst src errc rest buf)
      | Some err =>
          match buf with
          | [] =>
              mkRun [ReadMessage src (ReadOk msgType msg);
                     WriteMessage dst msgType (Bytes msg); Send errc err]
                [err] Exited
          | _ :: _ =>
              mkRun [ReadMessage src (ReadOk msgType msg);
                     WriteMessage dst msgType (Bytes msg)] buf Parked
          end
      end
  end.

(** The intercept loop, backend to application. [viewer] tells whether
    [w.Viewer] is non-nil. *)
Fixpoint replicateWebsocketClientToProxy (viewer : bool) (dst src : Conn)
    (errc : errChan) (script : list tick) (buf : list error) : run :=
  match script with
  | [] => mkRun [] buf Running
  | Taken :: rest =>
      replicateWebsocketClientToProxy viewer dst src errc rest (tail buf)
  | StopReady :: _ =>
      mkRun [WriteMessage dst CloseMessage (Bytes "Closed by proxy")] buf Returned
  | Default (ReadErr err) _ :: rest =>
      let m := closeMessage err in
      match buf with
      | [] =>
          emit [ReadMessage src (ReadErr err); Send errc err;
                WriteMessage dst CloseMessage m]
            (replicateWebsocketClientToProxy viewer dst src errc rest [err])
      | _ :: _ => mkRun [ReadMessage src (ReadErr err)] buf Parked
      end
  | Default (ReadOk msgType msg) _ :: rest =>
      emit (ReadMessage src (ReadOk msgType msg) ::
            if (msgType =? 1) && viewer then [HandleMessage msg] else [])
        (replicateWebsocketClientToProxy viewer dst src errc rest buf)
  end.

(** ** The proxy object *)

(** A Go call either completes or panics. *)
Inductive result (A : Type) :=
  | Ok (a : A)
  | Panic.
Arguments Ok {A} a.
Arguments Panic {A}.

(** A [chan struct{}] used as a stop signal: never made, open, or closed. *)
Inductive chanState := NilChan | OpenChan | ClosedChan.

(** The builtin [close]: [None] is the run-time panic on a nil or an
    already closed channel. *)
Definition close (c : chanState) : option chanState :=
  match c with
  | OpenChan => Some ClosedChan
  | NilChan | ClosedChan => None
  end.

Module common.
(** [common.ProxyOptions]. [Url] is a [*url.URL]: the resolver built by
    [NewProxy] returns it where a [*url.URL] is expected. The capability
    fields other than [Director] only tell whether they are non-nil. *)
Record ProxyOptions := mk {
  UniqueID : string;
  Url : urlPtr;
  NaturalTunnel : bool;
  Director : option (Request.t -> header -> header);
  Viewer : bool;
  Manager : bool;
  Upgrader : bool;
  Dialer : bool
}.
End common.

(** [HalfDuplexWebsocketProxy] with the embedded [common.WebsocketProxy]
    flattened into it. [Backend] threads the heap: a resolver returns a
    pointer and may write through the pointers it holds. *)
Record HalfDuplexWebsocketProxy := mkProxy {
  UniqueId : string;
  Director : option (Request.t -> header -> header);
  Viewer : bool;
  Manager : bool;
  Upgrader : bool;
  Dialer : bool;
  Backend : option (Request.t -> heap -> heap * result urlPtr);
  Options : common.ProxyOptions;
  Connected : bool;
  StopClientChan : chanState;
  StopBackendChan : chanState;
  ToClient : option Conn;
  ToBackend : option Conn
}.

Definition setConnected (b : bool) (w : HalfDuplexWebsocketProxy) :=
  mkProxy (UniqueId w) (Director w) (Viewer w) (Manager w) (Upgrader w)
    (Dialer w) (Backend w) (Options w) b (StopClientChan w)
    (StopBackendChan w) (ToClient w) (ToBackend w).

Definition setStopClientChan (c : chanState) (w : HalfDuplexWebsocketProxy) :=
  mkProxy (UniqueId w) (Director w) (Viewer w) (Manager w) (Upgrader w)
    (Dialer w) (Backend w) (Options w) (Connected w) c
    (StopBackendChan w) (ToClient w) (ToBackend w).

Definition setStopBackendChan (c : chanState) (w : HalfDuplexWebsocketProxy) :=
  mkProxy (UniqueId w) (Director w) (Viewer w) (Manager w) (Upgrader w)
    (Dialer w) (Backend w) (Options w) (Connected w) (StopClientChan w)
    c (ToClient w) (ToBackend w).

Definition setToClient (c : option Conn) (w : HalfDuplexWebsocketProxy) :=
  mkProxy (UniqueId w) (Director w) (Viewer w) (Manager w) (Upgrader w)
    (Dialer w) (Backend w) (Options w) (Connected w) (StopClientChan w)
    (StopBackendChan w) c (ToBackend w).

Definition setToBackend (c : option Conn) (w : HalfDuplexWebsocketProxy) :=
  mkProxy (UniqueId w) (Director w) (Viewer w) (Manager w) (Upgrader w)
    (Dialer w) (Backend w) (Options w) (Connected w) (StopClientChan w)
    (StopBackendChan w) (ToClient w) c.

(** The three assignments [u.Fragment = ...; u.Path = ...; u.RawQuery = ...]. *)
Definition overlay (u : url.URL) (r : Request.t) : url.URL :=
  url.mk (url.Scheme u) (url.Opaque u) (url.User u) (url.Host u)
    (url.Path (Request.URL r)) (url.RawPath u) (url.ForceQuery u)
    (url.RawQuery (Request.URL r)) (url.Fragment (Request.URL r))
    (url.RawFragment u).

(** The resolver closure of [NewProxy]. [u := options.Url] copies the
    pointer, so the assignments write into the configured URL object and
    the closure returns that same pointer; with a nil [Url] the first
    assignment panics. An address outside the heap does not occur in Go. *)
Definition backend (options : common.ProxyOptions) (r : Request.t) (h : heap)
    : heap * result urlPtr :=
  match common.Url options with
  | None => (h, Panic)
  | Some a =>
      match h !! a with
      | Some u => (<[a := overlay u r]> h, Ok (Some a))
      | None => (h, Panic)
      end
  end.

(** [NewProxy]: the stop channels are left at their zero value, the two
    connection handles are nil. *)
Definition NewProxy (options : common.ProxyOptions) : HalfDuplexWebsocketProxy :=
  mkProxy (common.UniqueID options) (common.Director options)
    (common.Viewer options) (common.Manager options)
    (common.Upgrader options) (common.Dialer options)
    (Some (backend options)) options false NilChan NilChan None None.

(** ** Header negotiation *)

(** The eleven [Del] calls of natural-tunnel mode, in program order. *)
Definition strippedNames : list string :=
  ["Connection"; "Sec-Websocket-Extensions"; "Sec-Websocket-Key";
   "Sec-Websocket-Version"; "Upgrade";
   "Keep-Alive"; "Transfer-Encoding"; "TE"; "Trailer";
   "Proxy-Authorization"; "Proxy-Authenticate"]%string.

Definition strip (h : header) : header := foldl Del h strippedNames.

(** Default mode, request leg: the allow-listed copy. *)
Definition defaultRequestHeader (req : Request.t) : header :=
  let h := (∅ : header) in
  let h := let origin := Get (Request.Header req) "User-Agent" in
           if decide (origin = "") then h else Add h "User-Agent" origin in
  let h := let origin := Get (Request.Header req) "Origin" in
           if decide (origin = "") then h else Add h "Origin" origin in
  let h := foldl (fun h prot => Add h "Sec-WebSocket-Protocol" prot) h
             (Index (Request.Header req)
                (CanonicalHeaderKey "Sec-WebSocket-Protocol")) in
  let h := foldl (fun h cookie => Add h "Cookie" cookie) h
             (Index (Request.Header req) (CanonicalHeaderKey "Cookie")) in
  if decide (Request.Host req = "") then h else Set_ h "Host" (Request.Host req).

(** [strings.Join]. *)
Definition Join (elems : list string) (sep : string) : string :=
  String.concat sep elems.

(** The forwarded-for and forwarded-proto annotation of both modes. *)
Definition forwarded (req : Request.t) (requestHeader : header) : header :=
  let h :=
    match Request.SplitHostPort req with
    | Some clientIP =>
        let clientIP :=
          match Request.Header req !! "X-Forwarded-For" with
          | Some prior => Join prior ", " ++ ", " ++ clientIP
          | None => clientIP
          end in
        Set_ requestHeader "X-Forwarded-For" clientIP
    | None => requestHeader
    end in
  let h := Set_ h "X-Forwarded-Proto" "http" in
  if Request.TLS req then Set_ h "X-Forwarded-Proto" "https" else h.

(** The header set handed to [dialer.Dial]. *)
Definition requestHeader (w : HalfDuplexWebsocketProxy) (req : Request.t) : header :=
  let h :=
    if common.NaturalTunnel (Options w) then strip (Clone (Request.Header req))
    else defaultRequestHeader req in
  let h := forwarded req h in
  match Director w with
  | Some AdjustHeaders => AdjustHeaders req h
  | None => h
  end.

(** Default mode, response leg. *)
Definition defaultUpgradeHeader (resp : Response.t) : header :=
  let h := (∅ : header) in
  let h := let hdr := Get (Response.Header resp) "Sec-Websocket-Protocol" in
           if decide (hdr = "") then h else Set_ h "Sec-Websocket-Protocol" hdr in
  let h := let hdr := Get (Response.Header resp) "Set-Cookie" in
           if decide (hdr = "") then h else Set_ h "Set-Cookie" hdr in
  let hdr := Get (Response.Header resp) "Sec-Websocket-Accept" in
  if decide (hdr = "") then h else Set_ h "Sec-Websocket-Accept" hdr.

(** The header set handed to [upgrader.Upgrade]; [None] is the nil map.
    In natural-tunnel mode [upgradeHeader := req.Header.Clone()] declares a
    new variable inside the branch: the stripped clone lives in [inner] and
    the variable that reaches [Upgrade] keeps its zero value. *)
Definition upgradeHeader (w : HalfDuplexWebsocketProxy) (req : Request.t)
    (resp : Response.t) : option header :=
  let outer : option header := None in
  if common.NaturalTunnel (Options w) then
    let inner := strip (Clone (Request.Header req)) in
    outer
  else Some (defaultUpgradeHeader resp).

(** ** The response writer and [copyResponse] *)

Record ResponseWriter := mkRW {
  rwHeader : header;
  rwStatus : option Z;
  rwBody : string
}.

(** [rw.WriteHeader]: only the first call sets the status. *)
Definition WriteHeader (code : Z) (rw : ResponseWriter) : ResponseWriter :=
  match rwStatus rw with
  | None => mkRW (rwHeader rw) (Some code) (rwBody rw)
  | Some _ => rw
  end.

Definition copyHeader (dst src : header) : header :=
  map_fold (fun k vv dst => foldl (fun dst v => Add dst k v) dst vv) dst src.

(** [io.Copy(rw, resp.Body)] either writes the whole body, or fails with
    [err] after [n] bytes: [ioCopy] is [None] or [Some (n, err)]. *)
Definition copyResponse (rw : ResponseWriter) (resp : Response.t)
    (ioCopy : option (nat * error)) : ResponseWriter * option error :=
  let rw := mkRW (copyHeader (rwHeader rw) (Response.Header resp))
              (rwStatus rw) (rwBody rw) in
  let rw := WriteHeader (Response.StatusCode resp) rw in
  match ioCopy with
  | None =>
      (mkRW (rwHeader rw) (rwStatus rw) (rwBody rw ++ Response.Body resp), None)
  | Some (n, err) =>
      (mkRW (rwHeader rw) (rwStatus rw)
         (rwBody rw ++ substring 0 n (Response.Body resp)), Some err)
  end.

(** ** [ServeHTTP] *)

(** What [dialer.Dial] answers: a connection with the handshake response,
    or an error with or without a response. *)
Inductive dialResult :=
  | DialOk (resp : Response.t)
  | DialErr (err : error) (resp : option Response.t).

(** The answers of the collaborators during one request. [relay] is the
    error the final [select] receives and the channel it came from, [None]
    when no relay loop ever reports one. *)
Record world := mkWorld {
  dial : dialResult;
  ioCopy : option (nat * error);
  upgrade : option error;
  relay : option (errChan * error)
}.

(** How far the handler got: it returned, it panicked, or it is still
    waiting in the final [select]. *)
Inductive status := Done | Panicked | Waiting.

Record served := mkServed {
  proxy : HalfDuplexWebsocketProxy;
  rw : ResponseWriter;
  urls : heap;
  events : list event;
  state : status
}.

(** [http.StatusText] at the codes the handler uses. *)
Definition StatusText (code : Z) : string :=
  if code =? 503 then "Service Unavailable"
  else if code =? 500 then "Internal Server Error"
  else "".

(** The relay loops as [ServeHTTP] starts them. *)
Definition interceptLoop (w : HalfDuplexWebsocketProxy) :=
  replicateWebsocketClientToProxy (Viewer w) connPub connBackend errClient.

Definition forwardLoop :=
  replicateWebsocketProxyToServer connBackend connPub errBackend.

Definition ServeHTTP (w : HalfDuplexWebsocketProxy) (rw : ResponseWriter)
    (req : Request.t) (h : heap) (env : world) : served :=
  match Backend w with
  | None =>
      mkServed w rw h
        [HttpError "internal server error (code: 1)" StatusInternalServerError]
        Done
  | Some Backend =>
      match Backend req h with
      | (h, Panic) => mkServed w rw h [] Panicked
      | (h, Ok None) =>
          mkServed w rw h
            [HttpError "internal server error (code: 2)" StatusInternalServerError]
            Done
      | (h, Ok (Some a)) =>
          match h !! a with
          | None => mkServed w rw h [] Panicked
          | Some backendURL =>
              let ev := [Dial (Dialer w) backendURL (requestHeader w req)] in
              match dial env with
              | DialErr err (Some resp) =>
                  mkServed w (fst (copyResponse rw resp (ioCopy env))) h ev Done
              | DialErr err None =>
                  mkServed w rw h
                    (ev ++ [HttpError (StatusText StatusServiceUnavailable)
                              StatusServiceUnavailable])%list
                    Done
              | DialOk resp =>
                  let ev := (ev ++ [Upgrade (Upgrader w) (upgradeHeader w req resp)])%list in
                  match upgrade env with
                  | Some err => mkServed w rw h ev Done
                  | None =>
                      let w := setToBackend (Some connBackend) w in
                      let w := setToClient (Some connPub) w in
                      let ev := (ev ++ [SetPingHandler])%list in
                      let w := setConnected true w in
                      match relay env with
                      | None => mkServed w rw h ev Waiting
                      | Some (_, err) =>
                          let w := setConnected false w in
                          let ev :=
                            if Manager w && (0 <? String.length (UniqueId w))%nat
                            then (ev ++ [RemoveConnection (UniqueId w)])%list
                            else ev in
                          mkServed w rw h ev Done
                      end
                  end
              end
          end
      end
  end.

(** ** The ping handler installed on the client connection *)

Definition Second : Z := 1000000000.

(** [now1] and [now2] are the two readings of [time.Now()], [wb] and [wc]
    the results of the two [WriteControl] calls. *)
Definition pingHandler (appData : string) (now1 now2 : Z)
    (wb wc : option error) : list event * option error :=
  let ping := WriteControl connBackend PingMessage appData (now1 + Second) in
  match wb with
  | Some err => ([ping], Some err)
  | None =>
      let pong := WriteControl connPub PongMessage appData (now2 + Second) in
      match wc with
      | None => ([ping; pong], None)
      | Some err =>
          match dynType err with
          | ErrCloseSent => ([ping; pong], None)
          | NetError true => ([ping; pong], None)
          | _ => ([ping; pong], Some err)
          end
      end
  end.

(** ** The session API *)

Section SessionAPI.

(** Declared in [pkg/common], which the handler only imports. *)
Variable ErrConnectionNotEstablished : error.

(** [wr] is the result of [w.ToClient.WriteMessage(msgType, data)]. *)
Definition SendMessageByType (w : HalfDuplexWebsocketProxy) (msgType : Z)
    (data : string) (wr : option error) : list event * option error :=
  match ToClient w with
  | None => ([], Some ErrConnectionNotEstablished)
  | Some c =>
      match wr with
      | Some err => ([WriteMessage c msgType (Bytes data)], Some err)
      | None => ([WriteMessage c msgType (Bytes data)], None)
      end
  end.

End SessionAPI.

Definition IsConnected (w : HalfDuplexWebsocketProxy) : bool := Connected w.

(** [CloseProxy]: the proxy afterwards, the connections closed on the way,
    and whether the call completed or panicked in one of its two [close]
    statements. The two stop fields are taken to hold different channels;
    were one channel stored in both, the first [close] would close it for
    both and the second [close] would panic. *)
Definition CloseProxy (w : HalfDuplexWebsocketProxy)
    : HalfDuplexWebsocketProxy * list event * status :=
  let '(w, ev1) :=
    match ToBackend w with
    | Some c => (setToBackend None w, [Close c])
    | None => (w, [])
    end in
  let '(w, ev2) :=
    match ToClient w with
    | Some c => (setToClient None w, [Close c])
    | None => (w, [])
    end in
  let ev := (ev1 ++ ev2)%list in
  match close (StopBackendChan w) with
  | None => (w, ev, Panicked)
  | Some c =>
      let w := setStopBackendChan c w in
      match close (StopClientChan w) with
      | None => (w, ev, Panicked)
      | Some c => (setStopClientChan c w, ev, Done)
      end
  end.

(** ** Reading traces *)

(** The messages read from [src], in trace order. *)
Definition reads (src : Conn) (tr : list event) : list (Z * string) :=
  omap (fun e =>
          match e with
          | ReadMessage c (ReadOk t m) =>
              if decide (c = src) then Some (t, m) else None
          | _ => None
          end) tr.

(** The data messages written to [dst], in trace order: every
    [WriteMessage] of a byte slice whose type is not the close type. *)
Definition relayed (dst : Conn) (tr : list event) : list (Z * string) :=
  omap (fun e =>
          match e with
          | WriteMessage c t (Bytes m) =>
              if decide (c = dst) then
                if decide (t = CloseMessage) then None else Some (t, m)
              else None
          | _ => None
          end) tr.

(** The payloads handed to the Viewer, in trace order. *)
Definition viewed (tr : list event) : list string :=
  omap (fun e => match e with HandleMessage m => Some m | _ => None end) tr.

(** The text messages read from [src], in trace order. *)
Definition texts (src : Conn) (tr : list event) : list string :=
  omap (fun tm => if decide (fst tm = TextMessage) then Some (snd tm) else None)
    (reads src tr).

(** [ReadMessage] of the transport yields text or binary messages only. *)
Definition isData (t : Z) : bool := (t =? TextMessage) || (t =? BinaryMessage).

Definition dataScript (script : list tick) : bool :=
  forallb (fun k => match k with
                    | Default (ReadOk t _) _ => isData t
                    | _ => true
                    end) script.

(** The code and reason a close frame is built from after a failed read:
    those of a close error whose code is not [CloseNoStatusReceived],
    otherwise the normal-closure code with the text of the error. *)
Definition closeFrameFor (err : error) (code : Z) (text : string) : Prop :=
  (dynType err = CloseError code text /\ code <> CloseNoStatusReceived) \/
  ((forall c t, dynType err = CloseError c t -> c = CloseNoStatusReceived) /\
   code = CloseNormalClosure /\ text = Error err).

(** Turns that neither report an error nor stop the loop. *)
Definition quiet (k : tick) : bool :=
  match k with
  | Default (ReadOk _ _) None | Taken => true
  | _ => false
  end.

(** What an event of the intercept loop may be, given the whole trace: a
    read of the backend, the report of a failed read, a close frame to the
    client, or a text message handed to the configured Viewer. *)
Definition interceptEvent (viewer : bool) (tr : list event) (e : event) : Prop :=
  match e with
  | ReadMessage c _ => c = connBackend
  | Send errc err =>
      errc = errClient /\ In (ReadMessage connBackend (ReadErr err)) tr
  | WriteMessage c t p =>
      c = connPub /\ t = CloseMessage /\
      (p = Bytes "Closed by proxy" \/
       exists err,
         In (ReadMessage connBackend (ReadErr err)) tr /\ p = closeMessage err)
  | HandleMessage m =>
      viewer = true /\ In (ReadMessage connBackend (ReadOk TextMessage m)) tr
  | _ => False
  end.

(** Every key of a header map is in canonical form, as the keys of a
    response parsed by [net/http] are. *)
Definition canonicalKeys (h : header) : bool :=
  forallb (fun kv => String.eqb (CanonicalHeaderKey (fst kv)) (fst kv))
    (map_to_list h).

(** ** Sample data *)

Definition wsBackend : url.URL :=
  url.mk "ws" "" None "backend:3000" "/base" "" false "" "" "".

Definition chatRequest : Request.t :=
  Request.mk (url.mk "" "" None "" "/chat" "" false "room=1" "top" "")
    {[ "X-Custom" := ["v"]; "Connection" := ["Upgrade"];
       "Upgrade" := ["websocket"]; "Sec-Websocket-Key" := ["abc"] ]}
    "proxy.example" (Some "10.0.0.7") false.

Definition tunnelOptions : common.ProxyOptions :=
  common.mk "s-1" (Some 0%nat) true None true false false false.

Definition sampleHeap : heap := {[ 0%nat := wsBackend ]}.

(** A response writer nothing has been written to yet. *)
Definition freshRW : ResponseWriter := mkRW ∅ None "".

Definition unauthorized : Response.t :=
  Response.mk 401
    {[ "Www-Authenticate" := ["Basic realm=ws"]; "Content-Type" := ["text/plain"] ]}
    "denied".

Definition badHandshake : error := mkError OtherError "websocket: bad handshake".

Definition unreachable : error :=
  mkError (NetError false) "dial tcp: connection refused".

Definition noStatus : error :=
  mkError (CloseError CloseNoStatusReceived "") "websocket: close 1005 (no status)".

Definition goingAway : error :=
  mkError (CloseError 1001 "bye") "websocket: close 1001 (going away): bye".

Definition notEstablished : error := mkError OtherError "connection not established".

Definition lobbyRequest : Request.t :=
  Request.mk (url.mk "" "" None "" "/lobby" "" false "" "" "") ∅
    "proxy.example" None false.

(** A resolver that yields nil. *)
Definition nilResolver (r : Request.t) (h : heap) : heap * result urlPtr :=
  (h, Ok None).

(** A proxy in the middle of a session, its two stop signals made. *)
Definition liveProxy : HalfDuplexWebsocketProxy :=
  mkProxy "s-1" None true false false false (Some (backend tunnelOptions))
    tunnelOptions true OpenChan OpenChan (Some connPub) (Some connBackend).

(** Two client messages, then the stop signal. *)
Definition twoMessages : list tick :=
  [Default (ReadOk TextMessage "ping-data") None;
   Default (ReadOk BinaryMessage "blob") None; StopReady].

(** One client message, then the client goes away. *)
Definition helloThenGone : list tick :=
  [Default (ReadOk TextMessage "hello") None; Default (ReadErr goingAway) None].

(** The backend accepts the handshake. *)
Definition switching : Response.t :=
  Response.mk 101 {[ "Sec-Websocket-Accept" := ["s3pPLMBiTxaQ9kYGzzhZRbK+xOo="] ]} "".

(** A session that is set up and ends when the client goes away. *)
Definition sessionWorld : world :=
  mkWorld (DialOk switching) None None (Some (errBackend, goingAway)).

(** ** Further definitions: the rest of the session API, start-up, traces *)

Section SendMessage.

(** Both declared in [pkg/common], which the handler only imports. *)
Variable MessageTypeControl : Z.
Variable ErrConnectionNotEstablished : error.


End SendMessage.

(** What an event of the forward loop may be: a read of the client, a
    write to the backend, or a report on the loop's own error channel. *)
Definition forwardEvent (e : event) : Prop :=
  match e with
  | ReadMessage c _ => c = connPub
  | WriteMessage c _ _ => c = connBackend
  | Send errc _ => errc = errBackend
  | _ => False
  end.

(** Whether the stop case is ever taken in a script. *)
Definition stops (script : list tick) : bool :=
  existsb (fun k => match k with StopReady => true | _ => false end) script.

(** The close frame a loop writes when it is told to stop. *)
Definition closedByProxy (dst : Conn) : event :=
  WriteMessage dst CloseMessage (Bytes "Closed by proxy").

(** The backend goes away while the application is listening. *)
Definition eventThenGone : list tick :=
  [Default (ReadOk TextMessage "event-A") None; Default (ReadErr goingAway) None].

(** A write to the backend fails on the second message. *)
Definition brokenPipe : error := mkError (NetError false) "write: broken pipe".

Definition writeFails : list tick :=
  [Default (ReadOk TextMessage "one") None;
   Default (ReadOk TextMessage "two") (Some brokenPipe);
   Default (ReadOk TextMessage "three") None].

(** The five header names of the default-mode request leg, and the three
    of its response leg, as they are stored. *)
Definition requestAllowList : list string :=
  ["User-Agent"; "Origin"; "Sec-Websocket-Protocol"; "Cookie"; "Host"]%string.

Definition upgradeAllowList : list string :=
  ["Sec-Websocket-Protocol"; "Set-Cookie"; "Sec-Websocket-Accept"]%string.

(** The options of [tunnelOptions] with natural-tunnel mode off. *)
Definition defaultOptions : common.ProxyOptions :=
  common.mk "s-1" (Some 0%nat) false None true false false false.

(** A browser request behind an earlier proxy, with credentials. *)
Definition browserRequest : Request.t :=
  Request.mk (url.mk "" "" None "" "/feed" "" false "" "" "")
    {[ "User-Agent" := ["Mozilla/5.0"; "ignored"];
       "Cookie" := ["a=1"; "b=2"];
       "Authorization" := ["Bearer secret"];
       "X-Forwarded-For" := ["203.0.113.9"];
       "X-Forwarded-Proto" := ["gopher"] ]}
    "proxy.example" (Some "10.0.0.7") true.

(** The backend accepts and sets two cookies. *)
Definition twoCookies : Response.t :=
  Response.mk 101
    {[ "Set-Cookie" := ["sid=1"; "theme=dark"];
       "Sec-Websocket-Accept" := ["s3pPLMBiTxaQ9kYGzzhZRbK+xOo="];
       "X-Backend" := ["b7"] ]} "".

(** ** Start-up: the package's [Init] *)

Module logging.

(** [LogLevel] is an [int64]; the named levels. *)
Definition LogLevelDefault : Z := 0.
Definition LogLevelErrorOnly : Z := 1.
Definition LogLevelStandard : Z := 2.
Definition LogLevelElevated : Z := 3.
Definition LogLevelFull : Z := 4.
Definition LogLevelDebug : Z := 5.
Definition LogLevelTrace : Z := 6.
Definition LogLevelVerbose : Z := 7.

Record WekSocketProxyInit := mkInit {
  LogLevel : Z;
  DebugFilePath : string
}.

(** The calls [Init] makes on [klog] and on the [flag] package. *)
Inductive call :=
  | InitFlags
  | FlagSet (name value : string)
  | FlagParse.

(** [strconv.FormatInt(i, 10)]. *)
Definition FormatInt (i : Z) : string := NilZero.string_of_int (Z.to_int i).

(** [Init] works on its own copy of the argument. *)
Definition Init (init : WekSocketProxyInit) : list call :=
  let init :=
    if LogLevel init =? LogLevelDefault
    then mkInit LogLevelStandard (DebugFilePath init) else init in
  ([InitFlags; FlagSet "v" (FormatInt (LogLevel init))] ++
   (if decide (DebugFilePath init = "") then []
    else [FlagSet "logtostderr" "false";
          FlagSet "log_file" (DebugFilePath init)]) ++
   [FlagParse])%list.

End logging.


(** Start-up with the default level and a debug file. *)
Definition debugInit : logging.WekSocketProxyInit :=
  logging.mkInit logging.LogLevelDefault "/tmp/proxy.log".

(** ** Scripts of the client side *)

(** The messages a script lets the loop read, in script order. *)
Definition offered (script : list tick) : list (Z * string) :=
  omap (fun k =>
          match k with
          | Default (ReadOk t m) _ => Some (t, m)
          | _ => None
          end) script.

(** The script in which the client sends the given messages, one per
    turn, and every write to the backend succeeds. *)
Definition clientSends (msgs : list (Z * string)) : list tick :=
  map (fun tm => Default (ReadOk (fst tm) (snd tm)) None) msgs.

(** For each message its read from the client followed by its write to
    the backend. *)
Definition readWritePairs (msgs : list (Z * string)) : list event :=
  flat_map (fun tm => [ReadMessage connPub (ReadOk (fst tm) (snd tm));
                       WriteMessage connBackend (fst tm) (Bytes (snd tm))])
    msgs.

(** Whether a write to the backend fails somewhere in a script. *)
Definition writeFailed (script : list tick) : bool :=
  existsb (fun k => match k with
                    | Default (ReadOk _ _) (Some _) => true
                    | _ => false
                    end) script.

(** The values a flag is set to by a list of start-up calls, in call
    order. *)
Definition settings (name : string) (calls : list logging.call) : list string :=
  omap (fun c =>
          match c with
          | logging.FlagSet n v => if decide (n = name) then Some v else None
          | _ => None
          end) calls.

(** A proxy whose client-side stop signal was closed before. *)
Definition halfStoppedProxy : HalfDuplexWebsocketProxy :=
  mkProxy "s-1" None true false false false (Some (backend tunnelOptions))
    tunnelOptions true ClosedChan OpenChan (Some connPub) (Some connBackend).

(** The turns of a script in which the loop reads, and the reads of a
    trace. *)
Definition turns (script : list tick) : nat :=
  length (List.filter
            (fun k => match k with Default _ _ => true | _ => false end) script).

Definition readCount (tr : list event) : nat :=
  length (List.filter
            (fun e => match e with ReadMessage _ _ => true | _ => false end) tr).

(** * Properties *)

(** ** Header keys *)

Example canon_te : CanonicalHeaderKey "TE" = "Te".
Proof. reflexivity. Qed.

Example canon_proto :
  CanonicalHeaderKey "Sec-WebSocket-Protocol" = "Sec-Websocket-Protocol".
Proof. reflexivity. Qed.

Example canon_lower : CanonicalHeaderKey "keep-alive" = "Keep-Alive".
Proof. reflexivity. Qed.

Example canon_space : CanonicalHeaderKey "bad key" = "bad key".
Proof. reflexivity. Qed.

Example strip_chat : strip (Request.Header chatRequest) = {[ "X-Custom" := ["v"] ]}.
Proof. vm_compute. reflexivity. Qed.

(** ** Properties of the forward loop *)

Lemma closeMessage_format err :
  exists code text, closeMessage err = FormatCloseMessage code text.
Proof.
  unfold closeMessage. destruct (dynType err); eauto.
  destruct (negb _); eauto.
Qed.

Lemma forward_read_then_write script :
  forall buf i t m,
    trace (forwardLoop script buf) !! i = Some (ReadMessage connPub (ReadOk t m)) ->
    trace (forwardLoop script buf) !! S i
      = Some (WriteMessage connBackend t (Bytes m)).
Proof.
  unfold forwardLoop.
  induction script as [|k rest IH]; intros buf i t m; [done|].
  destruct k as [|[t' m'|err] w|]; simpl.
  - destruct i as [|i]; simpl; [inversion 1|done].
  - destruct w as [err|].
    + destruct buf; simpl; destruct i as [|[|[|i]]]; simpl; intros H;
        by simplify_eq.
    + destruct i as [|[|i]]; simpl; intros H; simplify_eq; [done|].
      by apply IH.
  - destruct buf; simpl.
    + destruct i as [|[|[|i]]]; simpl; intros H; simplify_eq.
      by apply IH.
    + destruct i as [|i]; simpl; intros H; by simplify_eq.
  - apply IH.
Qed.

Lemma forward_relayed_reads script :
  forall buf,
    dataScript script = true ->
    relayed connBackend (trace (forwardLoop script buf))
      = reads connPub (trace (forwardLoop script buf)).
Proof.
  unfold forwardLoop.
  induction script as [|k rest IH]; intros buf Hd; [done|].
  simpl in Hd. apply andb_true_iff in Hd as [Hk Hd].
  destruct k as [|[t' m'|err] w|]; simpl.
  - done.
  - assert (t' <> CloseMessage) as Hne.
    { unfold isData, TextMessage, BinaryMessage, CloseMessage in *. lia. }
    destruct w as [err|].
    + destruct buf; simpl; unfold relayed, reads; simpl;
        repeat case_decide; done.
    + unfold relayed, reads in *. simpl. repeat case_decide; try done.
      f_equal. by apply IH.
  - destruct buf; simpl; [|done].
    destruct (closeMessage_format err) as (c & x & ->).
    unfold relayed, reads in *. simpl. by apply IH.
  - by apply IH.
Qed.

Lemma closeMessage_spec err :
  exists code text,
    closeMessage err = FormatCloseMessage code text /\ closeFrameFor err code text.
Proof.
  unfold closeMessage, closeFrameFor.
  destruct (dynType err) as [c t| |b|] eqn:E.
  - destruct (c =? CloseNoStatusReceived) eqn:Hc; simpl.
    + apply Z.eqb_eq in Hc. exists CloseNormalClosure, (Error err).
      split; [done|]. right. split; [|done]. intros ? ? [= <- _]. done.
    + apply Z.eqb_neq in Hc. exists c, t. split; [done|]. by left.
  - exists CloseNormalClosure, (Error err). split; [done|]. right. done.
  - exists CloseNormalClosure, (Error err). split; [done|]. right. done.
  - exists CloseNormalClosure, (Error err). split; [done|]. right. done.
Qed.

Lemma forward_failure_at script :
  forall buf i err,
    let r := forwardLoop script buf in
    trace r !! i = Some (ReadMessage connPub (ReadErr err)) ->
    (trace r !! S i = Some (Send errBackend err) /\
     trace r !! S (S i)
       = Some (WriteMessage connBackend CloseMessage (closeMessage err))) \/
    (trace r !! S i = None /\ final r = Parked /\ errcBuf r <> []).
Proof.
  unfold forwardLoop.
  induction script as [|k rest IH]; intros buf i err; [done|].
  destruct k as [|[t' m'|e] w|]; simpl.
  - destruct i as [|i]; simpl; [inversion 1|done].
  - destruct w as [e|].
    + destruct buf; simpl; destruct i as [|[|[|i]]]; simpl; intros H;
        by simplify_eq.
    + destruct i as [|[|i]]; simpl; intros H; simplify_eq.
      by apply IH.
  - destruct buf; simpl.
    + destruct i as [|[|[|i]]]; simpl; intros H; simplify_eq.
      * by left.
      * by apply IH.
    + destruct i as [|i]; simpl; intros H; simplify_eq. by right.
  - apply IH.
Qed.

Lemma forward_quiet_prefix pre :
  forall script,
    forallb quiet pre = true ->
    forwardLoop (pre ++ script) []
      = emit (trace (forwardLoop pre [])) (forwardLoop script []).
Proof.
  unfold forwardLoop.
  induction pre as [|k pre IH]; intros script Hq.
  - simpl. by destruct (replicateWebsocketProxyToServer _ _ _ script []).
  - simpl in Hq. apply andb_true_iff in Hq as [Hk Hq].
    destruct k as [|[t m|e] [e'|]|]; try done; simpl.
    + rewrite IH by done. reflexivity.
    + by apply IH.
Qed.

Lemma forward_first_failure pre err w rest :
  forallb quiet pre = true ->
  trace (forwardLoop (pre ++ Default (ReadErr err) w :: rest) [])
    = (trace (forwardLoop pre []) ++
       [ReadMessage connPub (ReadErr err); Send errBackend err;
        WriteMessage connBackend CloseMessage (closeMessage err)] ++
       trace (forwardLoop rest [err]))%list.
Proof.
  intros Hq. rewrite forward_quiet_prefix by done. reflexivity.
Qed.

(** ** Properties of the intercept loop *)

Lemma interceptEvent_mono viewer evs tr e :
  interceptEvent viewer tr e -> interceptEvent viewer (evs ++ tr) e.
Proof.
  destruct e; simpl; try done.
  - intros (-> & -> & [->|(err & Hin & ->)]); repeat split; [by left|].
    right. exists err. split; [|done]. apply in_or_app. by right.
  - intros [-> Hin]. split; [done|]. apply in_or_app. by right.
  - intros [-> Hin]. split; [done|]. apply in_or_app. by right.
Qed.

Lemma intercept_events viewer script :
  forall buf,
    let tr := trace (replicateWebsocketClientToProxy viewer connPub connBackend
                       errClient script buf) in
    Forall (interceptEvent viewer tr) tr.
Proof.
  induction script as [|k rest IH]; intros buf; simpl; [constructor|].
  destruct k as [|[t m|err] w|]; simpl.
  - constructor; [|constructor]. simpl. repeat split. by left.
  - destruct ((t =? 1) && viewer) eqn:Hv; simpl.
    + apply andb_true_iff in Hv as [Ht ->]. apply Z.eqb_eq in Ht as ->.
      constructor; [done|]. constructor; [simpl; split; [done|by left]|].
      eapply Forall_impl; [apply IH|].
      intros e He. by apply (interceptEvent_mono _ [_; _]).
    + constructor; [done|].
      eapply Forall_impl; [apply IH|].
      intros e He. by apply (interceptEvent_mono _ [_]).
  - destruct buf; simpl.
    + constructor; [done|]. constructor; [simpl; split; [done|by left]|].
      constructor.
      { simpl. repeat split. right. exists err. split; [by left|done]. }
      eapply Forall_impl; [apply IH|].
      intros e He. by apply (interceptEvent_mono _ [_; _; _]).
    + constructor; [done|constructor].
  - apply IH.
Qed.

Lemma intercept_viewed viewer script :
  forall buf,
    let tr := trace (replicateWebsocketClientToProxy viewer connPub connBackend
                       errClient script buf) in
    viewed tr = if viewer then texts connBackend tr else [].
Proof.
  induction script as [|k rest IH]; intros buf; simpl.
  { by destruct viewer. }
  destruct k as [|[t m|err] w|]; simpl.
  - by destruct viewer.
  - specialize (IH buf). simpl in IH.
    unfold viewed, texts, reads in *. simpl.
    destruct (t =? 1) eqn:Ht; simpl.
    + apply Z.eqb_eq in Ht as ->.
      destruct viewer; simpl; [f_equal|]; exact IH.
    + apply Z.eqb_neq in Ht.
      destruct viewer; simpl; [|exact IH].
      case_decide; [done|]. exact IH.
  - destruct buf; simpl; [|by destruct viewer].
    destruct (closeMessage_format err) as (c & x & ->).
    specialize (IH [err]). simpl in IH.
    unfold viewed, texts, reads in *. simpl. exact IH.
  - apply IH.
Qed.

Lemma interceptEvent_no_relay viewer tr l :
  Forall (interceptEvent viewer tr) l -> relayed connPub l = [].
Proof.
  induction 1 as [|e l He _ IH]; [done|].
  unfold relayed in *. destruct e; simpl in *; try exact IH.
  destruct He as (-> & -> & _). destruct data; exact IH.
Qed.

(** ** Properties of the header negotiation *)

Lemma foldl_Del_lookup names :
  forall (h : header) k,
    foldl Del h names !! k
      = if decide (k ∈ CanonicalHeaderKey <$> names) then None else h !! k.
Proof.
  induction names as [|n names IH]; intros h k.
  - simpl. done.
  - change (foldl Del h (n :: names)) with (foldl Del (Del h n) names).
    rewrite IH, fmap_cons. unfold Del. rewrite lookup_delete.
    destruct (decide (k ∈ CanonicalHeaderKey <$> names)) as [H1|H1];
      destruct (decide (k ∈ CanonicalHeaderKey n :: (CanonicalHeaderKey <$> names)))
        as [H2|H2];
      try destruct (decide (CanonicalHeaderKey n = k)) as [H3|H3]; try done;
      exfalso; rewrite elem_of_cons in H2; intuition congruence.
Qed.

(** Natural-tunnel stripping removes each of the eleven names. *)
Lemma strip_removes (h : header) name :
  name ∈ strippedNames -> strip h !! CanonicalHeaderKey name = None.
Proof.
  intros Hin. unfold strip. rewrite foldl_Del_lookup.
  case_decide as H; [done|]. exfalso. apply H.
  by apply list_elem_of_fmap_2.
Qed.

(** It keeps every other entry of the clone. *)
Lemma strip_keeps (h : header) k :
  k ∉ CanonicalHeaderKey <$> strippedNames -> strip h !! k = h !! k.
Proof.
  intros Hk. unfold strip. rewrite foldl_Del_lookup. by case_decide.
Qed.

Lemma Get_strip (h : header) name :
  name ∈ strippedNames -> Get (strip h) name = "".
Proof. intros Hin. unfold Get. by rewrite strip_removes. Qed.

Lemma forwarded_lookup req (h : header) k :
  k <> "X-Forwarded-For" -> k <> "X-Forwarded-Proto" ->
  forwarded req h !! k = h !! k.
Proof.
  intros H1 H2. unfold forwarded, Set_.
  change (CanonicalHeaderKey "X-Forwarded-Proto") with "X-Forwarded-Proto".
  change (CanonicalHeaderKey "X-Forwarded-For") with "X-Forwarded-For".
  destruct (Request.TLS req), (Request.SplitHostPort req);
    rewrite ?lookup_insert_ne by done; done.
Qed.

Lemma stripped_not_forwarded name :
  name ∈ strippedNames ->
  CanonicalHeaderKey name <> "X-Forwarded-For" /\
  CanonicalHeaderKey name <> "X-Forwarded-Proto".
Proof.
  unfold strippedNames. rewrite !elem_of_cons, elem_of_nil.
  intros H. decompose [or] H; subst; try done; by vm_compute.
Qed.

(** The request leg of natural-tunnel mode, when no Director adds to it. *)
Lemma requestHeader_stripped w req name :
  common.NaturalTunnel (Options w) = true -> Director w = None ->
  name ∈ strippedNames ->
  requestHeader w req !! CanonicalHeaderKey name = None.
Proof.
  intros Hn Hd Hin. unfold requestHeader. rewrite Hn, Hd.
  destruct (stripped_not_forwarded name Hin) as [H1 H2].
  rewrite forwarded_lookup by done. by apply strip_removes.
Qed.

(** The response leg of natural-tunnel mode hands [Upgrade] the nil map,
    whatever the request carries. *)
Lemma upgradeHeader_natural w req resp :
  common.NaturalTunnel (Options w) = true -> upgradeHeader w req resp = None.
Proof. intros Hn. unfold upgradeHeader. by rewrite Hn. Qed.

(** ** Properties of the backend resolver *)

Lemma backend_resolves options r (h : heap) a u :
  common.Url options = Some a -> h !! a = Some u ->
  backend options r h = (<[a := overlay u r]> h, Ok (Some a)).
Proof. intros Ha Hu. unfold backend. by rewrite Ha, Hu. Qed.

(** The object behind the configured pointer is overwritten. *)
Lemma backend_writes_through options r (h : heap) a u :
  common.Url options = Some a -> h !! a = Some u ->
  fst (backend options r h) !! a = Some (overlay u r).
Proof.
  intros Ha Hu. rewrite (backend_resolves _ _ _ _ _ Ha Hu). simpl.
  apply lookup_insert_eq.
Qed.

Lemma overlay_overlay u r r' : overlay (overlay u r) r' = overlay u r'.
Proof. reflexivity. Qed.

(** Resolving the same request again changes nothing further. *)
Lemma backend_again options r (h : heap) a u :
  common.Url options = Some a -> h !! a = Some u ->
  backend options r (fst (backend options r h)) = backend options r h.
Proof.
  intros Ha Hu. rewrite (backend_resolves _ _ _ _ _ Ha Hu). simpl.
  rewrite (backend_resolves _ _ _ a (overlay u r) Ha) by apply lookup_insert_eq.
  by rewrite overlay_overlay, insert_insert_eq.
Qed.

(** ** Properties of [copyResponse] *)

Lemma canonicalKeys_lookup (h : header) k vv :
  canonicalKeys h = true -> h !! k = Some vv -> CanonicalHeaderKey k = k.
Proof.
  unfold canonicalKeys. rewrite forallb_forall. intros Hc Hk.
  apply String.eqb_eq, (Hc (k, vv)).
  by apply list_elem_of_In, elem_of_map_to_list.
Qed.

Lemma Index_Add_eq (h : header) k v :
  CanonicalHeaderKey k = k -> Index (Add h k v) k = (Index h k ++ [v])%list.
Proof.
  intros Hk. unfold Index, Add. rewrite Hk. by rewrite lookup_insert_eq.
Qed.

Lemma Index_Add_ne (h : header) k k' v :
  CanonicalHeaderKey k = k -> k <> k' -> Index (Add h k v) k' = Index h k'.
Proof.
  intros Hk Hne. unfold Index, Add. rewrite Hk. by rewrite lookup_insert_ne.
Qed.

Lemma Index_foldl_Add vv :
  forall (dst : header) k k',
    CanonicalHeaderKey k = k ->
    Index (foldl (fun dst v => Add dst k v) dst vv) k'
      = if decide (k = k') then (Index dst k ++ vv)%list else Index dst k'.
Proof.
  induction vv as [|v vv IH]; intros dst k k' Hk; simpl.
  - case_decide; subst; by rewrite ?app_nil_r.
  - rewrite IH by done. case_decide.
    + rewrite Index_Add_eq by done. by rewrite <- app_assoc.
    + by rewrite Index_Add_ne.
Qed.

(** Copying into an empty header map reproduces the values of every key. *)
Lemma copyHeader_fresh (src : header) :
  canonicalKeys src = true ->
  forall k, Index (copyHeader ∅ src) k = Index src k.
Proof.
  intros Hc.
  assert (forall k vv, src !! k = Some vv -> CanonicalHeaderKey k = k) as Hk.
  { intros k vv. by apply canonicalKeys_lookup. }
  clear Hc. revert Hk. unfold copyHeader.
  apply (map_fold_weak_ind
           (fun (r : header) (m : header) =>
              (forall k vv, m !! k = Some vv -> CanonicalHeaderKey k = k) ->
              forall k, Index r k = Index m k)).
  - done.
  - intros i x m r Hi IH Hk k.
    assert (CanonicalHeaderKey i = i) as Hci.
    { apply (Hk i x). apply lookup_insert_eq. }
    assert (forall k, Index r k = Index m k) as IH'.
    { apply IH. intros j vv Hj. apply (Hk j vv).
      rewrite lookup_insert_ne; [done|]. intros ->. congruence. }
    rewrite Index_foldl_Add by done. case_decide as Hik.
    + subst k. rewrite IH'. unfold Index. rewrite Hi, lookup_insert_eq. done.
    + rewrite IH'. unfold Index. by rewrite lookup_insert_ne.
Qed.

Lemma copyResponse_fresh resp :
  canonicalKeys (Response.Header resp) = true ->
  let rw' := fst (copyResponse freshRW resp None) in
  rwStatus rw' = Some (Response.StatusCode resp) /\
  rwBody rw' = Response.Body resp /\
  forall k, Index (rwHeader rw') k = Index (Response.Header resp) k.
Proof.
  intros Hc. simpl. repeat split. by apply copyHeader_fresh.
Qed.

(** ** Properties of [CloseProxy] *)

(** After [CloseProxy], however it ended, both handles are nil and the
    next [close(w.StopBackendChan)] panics. *)
Lemma CloseProxy_after w :
  let w1 := fst (fst (CloseProxy w)) in
  ToClient w1 = None /\ ToBackend w1 = None /\
  close (StopBackendChan w1) = None.
Proof.
  unfold CloseProxy.
  destruct w as [? ? ? ? ? ? ? ? ? sc sb [c|] [b|]]; simpl;
    destruct sb, sc; simpl; auto.
Qed.

(** * The relay engine *)

(** C1 (amended): in every run of the intercept loop the events are reads
    of the backend, reports of failed reads, close frames to the client and
    Viewer calls, and nothing else; the payloads handed to the Viewer are,
    in read order, those of the text messages read when a Viewer is
    configured and none otherwise; no message read from the backend is
    written to the client. *)
Theorem intercept_loop_views_text_only w script buf :
  let tr := trace (interceptLoop w script buf) in
  Forall (interceptEvent (Viewer w) tr) tr /\
  viewed tr = (if Viewer w then texts connBackend tr else []) /\
  relayed connPub tr = [].
Proof.
  intros tr. unfold tr, interceptLoop.
  pose proof (intercept_events (Viewer w) script buf) as He.
  split; [exact He|]. split.
  - apply intercept_viewed.
  - eapply interceptEvent_no_relay, He.
Qed.

(** C1, as stated, fails on a binary message: with a Viewer configured the
    message is read from the backend and handed to nobody. *)
Lemma intercept_binary_message_not_viewed :
  let tr := trace (interceptLoop liveProxy
                     [Default (ReadOk BinaryMessage "event-A") None] []) in
  Viewer liveProxy = true /\
  tr = [ReadMessage connBackend (ReadOk BinaryMessage "event-A")] /\
  ~ In (HandleMessage "event-A") tr.
Proof.
  simpl. repeat split. intros [H|[]]. discriminate H.
Qed.

Lemma forward_clientSends msgs :
  forall buf,
    forwardLoop (clientSends msgs) buf = mkRun (readWritePairs msgs) buf Running.
Proof.
  unfold forwardLoop.
  induction msgs as [|[t m] msgs IH]; intros buf; [done|].
  simpl. by rewrite IH.
Qed.

Lemma forward_reads_offered script :
  forall buf,
    let r := forwardLoop script buf in
    reads connPub (trace r) `prefix_of` offered script /\
    (final r = Running -> reads connPub (trace r) = offered script).
Proof.
  unfold forwardLoop.
  induction script as [|k rest IH]; intros buf; simpl; [done|].
  destruct k as [|[t m|err] w|]; simpl.
  - split; [apply prefix_nil|done].
  - destruct w as [e|].
    + destruct buf; simpl; (split; [|done]);
        unfold reads, offered; simpl; apply prefix_cons, prefix_nil.
    + destruct (IH buf) as [Hp He]. unfold reads, offered in *. simpl.
      split; [by apply prefix_cons|]. intros Hr. f_equal. by apply He.
  - destruct buf; simpl.
    + destruct (IH [err]) as [Hp He]. unfold reads, offered in *. simpl.
      split; [exact Hp|exact He].
    + split; [apply prefix_nil|done].
  - apply IH.
Qed.

(** C2: what the forward loop writes to the backend is what the client
    sent. When the client sends a list of messages and every write
    succeeds, the run of the loop is, message by message, the read of the
    message followed by its write to the backend with the same type and
    payload, and the loop is still running. In every run the messages read
    are an initial part of the messages the script offers, all of them
    while the loop is running; each read is followed at once, before any
    other read, by the write of that message; and the data messages written
    to the backend are the messages read, in read order. *)
Theorem forward_loop_relays_in_order script buf :
  let r := forwardLoop script buf in
  let tr := trace r in
  (forall msgs,
      script = clientSends msgs -> r = mkRun (readWritePairs msgs) buf Running) /\
  reads connPub tr `prefix_of` offered script /\
  (final r = Running -> reads connPub tr = offered script) /\
  (forall i t m,
      tr !! i = Some (ReadMessage connPub (ReadOk t m)) ->
      tr !! S i = Some (WriteMessage connBackend t (Bytes m))) /\
  (dataScript script = true -> relayed connBackend tr = reads connPub tr).
Proof.
  intros r tr. split; [|split; [|split; [|split]]].
  - intros msgs ->. apply forward_clientSends.
  - apply forward_reads_offered.
  - apply forward_reads_offered.
  - intros i t m. apply forward_read_then_write.
  - apply forward_relayed_reads.
Qed.

Lemma forward_loop_relays_in_order_witness :
  forwardLoop (clientSends [(TextMessage, "ping-data"); (BinaryMessage, "blob")]) []
    = mkRun [ReadMessage connPub (ReadOk TextMessage "ping-data");
             WriteMessage connBackend TextMessage (Bytes "ping-data");
             ReadMessage connPub (ReadOk BinaryMessage "blob");
             WriteMessage connBackend BinaryMessage (Bytes "blob")] [] Running /\
  dataScript twoMessages = true /\
  trace (forwardLoop twoMessages []) !! 1%nat
    = Some (WriteMessage connBackend TextMessage (Bytes "ping-data")) /\
  relayed connBackend (trace (forwardLoop twoMessages []))
    = [(TextMessage, "ping-data"); (BinaryMessage, "blob")].
Proof.
  split.
  - destruct (forward_loop_relays_in_order
                (clientSends [(TextMessage, "ping-data"); (BinaryMessage, "blob")])
                []) as [Hs _].
    exact (Hs _ eq_refl).
  - split; [reflexivity|].
    destruct (forward_loop_relays_in_order twoMessages [])
      as (_ & _ & _ & Hi & Hr).
    split.
    + exact (Hi 0%nat TextMessage "ping-data" eq_refl).
    + rewrite (Hr eq_refl). reflexivity.
Defined.

(** C4 (amended): after every failed read of the forward loop there is a
    close frame built from the code and reason of the error when it is a
    close error with a code other than 1005, and from the normal-closure
    code with the error text otherwise; the loop reports the error on its
    channel and then writes that frame to the backend, unless the channel
    is still full, in which case it stays parked in the report. At the
    first failure of a loop started on an empty channel the channel has
    room. *)
Theorem forward_read_failure_reported script buf i err :
  let r := forwardLoop script buf in
  trace r !! i = Some (ReadMessage connPub (ReadErr err)) ->
  ((exists code text,
       closeFrameFor err code text /\
       trace r !! S i = Some (Send errBackend err) /\
       trace r !! S (S i)
         = Some (WriteMessage connBackend CloseMessage
                   (FormatCloseMessage code text))) \/
   (trace r !! S i = None /\ final r = Parked /\ errcBuf r <> [])) /\
  (forall pre w rest,
      script = (pre ++ Default (ReadErr err) w :: rest)%list ->
      buf = [] -> forallb quiet pre = true ->
      exists code text later,
        closeFrameFor err code text /\
        trace r
          = (trace (forwardLoop pre []) ++
             [ReadMessage connPub (ReadErr err); Send errBackend err;
              WriteMessage connBackend CloseMessage
                (FormatCloseMessage code text)] ++ later)%list).
Proof.
  intros r Hi. destruct (closeMessage_spec err) as (code & text & Hm & Hf).
  split.
  - destruct (forward_failure_at script buf i err Hi) as [[H1 H2]|H].
    + left. exists code, text. rewrite <- Hm. done.
    + by right.
  - intros pre w rest -> -> Hq.
    exists code, text, (trace (forwardLoop rest [err])). split; [done|].
    rewrite <- Hm. by apply forward_first_failure.
Qed.

Lemma forward_read_failure_reported_witness :
  trace (forwardLoop helloThenGone []) !! 2%nat
    = Some (ReadMessage connPub (ReadErr goingAway)) /\
  exists code text,
    closeFrameFor goingAway code text /\
    trace (forwardLoop helloThenGone []) !! 3%nat
      = Some (Send errBackend goingAway) /\
    trace (forwardLoop helloThenGone []) !! 4%nat
      = Some (WriteMessage connBackend CloseMessage
                (FormatCloseMessage code text)).
Proof.
  split; [reflexivity|].
  destruct (forward_read_failure_reported helloThenGone [] 2%nat goingAway
              eq_refl) as [[H|[H _]] _].
  - exact H.
  - discriminate H.
Defined.

(** C4, as stated, fails at a close error with code 1005: the frame
    carries the normal-closure code and the error text, not the code and
    reason of the close error; and once the handler has taken the report,
    the loop reads again, reports again and writes a second close frame. *)
Lemma forward_read_failure_keeps_reading :
  let r := forwardLoop [Default (ReadErr noStatus) None; Taken;
                        Default (ReadErr noStatus) None] [] in
  trace r
    = [ReadMessage connPub (ReadErr noStatus); Send errBackend noStatus;
       WriteMessage connBackend CloseMessage
         (FormatCloseMessage CloseNormalClosure "websocket: close 1005 (no status)");
       ReadMessage connPub (ReadErr noStatus); Send errBackend noStatus;
       WriteMessage connBackend CloseMessage
         (FormatCloseMessage CloseNormalClosure "websocket: close 1005 (no status)")] /\
  final r = Running /\
  dynType noStatus = CloseError CloseNoStatusReceived "" /\
  FormatCloseMessage CloseNormalClosure "websocket: close 1005 (no status)"
    <> FormatCloseMessage CloseNoStatusReceived "".
Proof. repeat split. discriminate. Qed.

(** * The handler *)

Lemma ServeHTTP_resolved w rw0 req (h h' : heap) env B a u :
  Backend w = Some B -> B req h = (h', Ok (Some a)) -> h' !! a = Some u ->
  ServeHTTP w rw0 req h env =
    let ev := [Dial (Dialer w) u (requestHeader w req)] in
    match dial env with
    | DialErr err (Some resp) =>
        mkServed w (fst (copyResponse rw0 resp (ioCopy env))) h' ev Done
    | DialErr err None =>
        mkServed w rw0 h'
          (ev ++ [HttpError (StatusText StatusServiceUnavailable)
                    StatusServiceUnavailable])%list Done
    | DialOk resp =>
        let ev := (ev ++ [Upgrade (Upgrader w) (upgradeHeader w req resp)])%list in
        match upgrade env with
        | Some err => mkServed w rw0 h' ev Done
        | None =>
            let w1 := setConnected true
                        (setToClient (Some connPub)
                           (setToBackend (Some connBackend) w)) in
            let ev := (ev ++ [SetPingHandler])%list in
            match relay env with
            | None => mkServed w1 rw0 h' ev Waiting
            | Some (_, err) =>
                mkServed (setConnected false w1) rw0 h'
                  (if Manager w && (0 <? String.length (UniqueId w))%nat
                   then (ev ++ [RemoveConnection (UniqueId w)])%list else ev)
                  Done
            end
        end
    end.
Proof.
  intros HB Hr Hu. unfold ServeHTTP. rewrite HB, Hr, Hu.
  destruct (dial env) as [resp|err [resp|]]; reflexivity.
Qed.

(** C7: when the backend URL is resolved and the dial fails, the handler
    returns with the proxy unchanged and without any upgrade. With a
    handshake response it copies that response to the caller: on a fresh
    response writer and a completed body copy, the status code, the values
    of every header and the body are those of the response. Without a
    response it answers 503 Service Unavailable. *)
Theorem dial_failure_is_relayed w rw0 req (h h' : heap) env B a u :
  Backend w = Some B -> B req h = (h', Ok (Some a)) -> h' !! a = Some u ->
  let s := ServeHTTP w rw0 req h env in
  (forall err resp,
      dial env = DialErr err (Some resp) ->
      proxy s = w /\ state s = Done /\
      events s = [Dial (Dialer w) u (requestHeader w req)] /\
      rw s = fst (copyResponse rw0 resp (ioCopy env)) /\
      (rw0 = freshRW -> ioCopy env = None ->
       canonicalKeys (Response.Header resp) = true ->
       rwStatus (rw s) = Some (Response.StatusCode resp) /\
       rwBody (rw s) = Response.Body resp /\
       forall k, Index (rwHeader (rw s)) k = Index (Response.Header resp) k)) /\
  (forall err,
      dial env = DialErr err None ->
      proxy s = w /\ state s = Done /\ rw s = rw0 /\
      events s = [Dial (Dialer w) u (requestHeader w req);
                  HttpError "Service Unavailable" 503]).
Proof.
  intros HB Hr Hu s. unfold s.
  rewrite (ServeHTTP_resolved _ _ _ _ _ _ _ _ _ HB Hr Hu). split.
  - intros err resp ->. simpl. do 4 (split; [done|]).
    intros -> -> Hc. by apply (copyResponse_fresh resp).
  - intros err ->. simpl. done.
Qed.

Lemma dial_failure_is_relayed_witness :
  let w := NewProxy tunnelOptions in
  let rejected := mkWorld (DialErr badHandshake (Some unauthorized)) None None None in
  let refused := mkWorld (DialErr unreachable None) None None None in
  (canonicalKeys (Response.Header unauthorized) = true /\
   rwStatus (rw (ServeHTTP w freshRW chatRequest sampleHeap rejected)) = Some 401 /\
   rwBody (rw (ServeHTTP w freshRW chatRequest sampleHeap rejected)) = "denied" /\
   Index (rwHeader (rw (ServeHTTP w freshRW chatRequest sampleHeap rejected)))
     "Www-Authenticate" = ["Basic realm=ws"]) /\
  events (ServeHTTP w freshRW chatRequest sampleHeap refused)
    = [Dial false (overlay wsBackend chatRequest) (requestHeader w chatRequest);
       HttpError "Service Unavailable" 503].
Proof.
  intros w rejected refused.
  assert (backend tunnelOptions chatRequest sampleHeap
            = (<[0%nat := overlay wsBackend chatRequest]> sampleHeap, Ok (Some 0%nat)))
    as Hr by (apply backend_resolves; reflexivity).
  split.
  - destruct (dial_failure_is_relayed w freshRW chatRequest sampleHeap _ rejected
                _ _ _ eq_refl Hr (lookup_insert_eq _ _ _)) as [H _].
    destruct (H badHandshake unauthorized eq_refl) as (_ & _ & _ & _ & Hv).
    destruct (Hv eq_refl eq_refl eq_refl) as (Hs & Hb & Hh).
    split; [reflexivity|]. split; [exact Hs|]. split; [exact Hb|].
    rewrite Hh. reflexivity.
  - destruct (dial_failure_is_relayed w freshRW chatRequest sampleHeap _ refused
                _ _ _ eq_refl Hr (lookup_insert_eq _ _ _)) as [_ H].
    destruct (H unreachable eq_refl) as (_ & _ & _ & He). exact He.
Defined.

(** C8: when the resolver is nil, or yields a nil URL, the handler answers
    500 and returns without dialing, leaving the proxy and the response
    writer as they were; the message carries code 1 when the resolver is
    nil and code 2 when the URL is. *)
Theorem nil_resolution_is_internal_error w rw0 req (h : heap) env :
  (Backend w = None \/
   exists B, Backend w = Some B /\ snd (B req h) = Ok None) ->
  let s := ServeHTTP w rw0 req h env in
  state s = Done /\ proxy s = w /\ rw s = rw0 /\
  (forall c u hd, ~ In (Dial c u hd) (events s)) /\
  ((Backend w = None /\
    events s = [HttpError "internal server error (code: 1)" 500]) \/
   (Backend w <> None /\
    events s = [HttpError "internal server error (code: 2)" 500])).
Proof.
  intros [HB|(B & HB & Hr)] s; unfold s, ServeHTTP; rewrite HB.
  - simpl. repeat split; [|by left]. intros c u hd [H|[]]. discriminate H.
  - destruct (B req h) as [h' r]. simpl in Hr. subst r. simpl.
    repeat split; [|by right]. intros c u hd [H|[]]. discriminate H.
Qed.

Lemma nil_resolution_is_internal_error_witness :
  let env := mkWorld (DialOk unauthorized) None None None in
  let noResolver :=
    mkProxy "s-1" None false false false false None tunnelOptions false
      NilChan NilChan None None in
  let nilURL :=
    mkProxy "s-1" None false false false false (Some nilResolver) tunnelOptions
      false NilChan NilChan None None in
  events (ServeHTTP noResolver freshRW chatRequest sampleHeap env)
    = [HttpError "internal server error (code: 1)" 500] /\
  events (ServeHTTP nilURL freshRW chatRequest sampleHeap env)
    = [HttpError "internal server error (code: 2)" 500].
Proof.
  intros env noResolver nilURL. split.
  - destruct (nil_resolution_is_internal_error noResolver freshRW chatRequest
                sampleHeap env (or_introl eq_refl))
      as (_ & _ & _ & _ & [[_ H]|[H _]]); [exact H|].
    exfalso. apply H. reflexivity.
  - destruct (nil_resolution_is_internal_error nilURL freshRW chatRequest
                sampleHeap env
                (or_intror (ex_intro _ nilResolver (conj eq_refl eq_refl))))
      as (_ & _ & _ & _ & [[H _]|[_ H]]); [discriminate H|exact H].
Defined.

(** * Control frames *)

(** C9: on a ping from the client the handler first sends a ping with the
    same application data to the backend, due one second after the clock
    reading, and returns the error of that write when it fails, sending no
    pong. Otherwise it sends a pong with the same data to the client, due
    one second after its own clock reading, and returns nil when that write
    succeeds, when it fails because a close was already sent, or when it
    fails with a temporary network error; any other error of the pong write
    is returned. *)
Theorem ping_handler_bridges appData now1 now2 wb wc :
  let ping := WriteControl connBackend PingMessage appData (now1 + Second) in
  let pong := WriteControl connPub PongMessage appData (now2 + Second) in
  let out := pingHandler appData now1 now2 wb wc in
  (forall err, wb = Some err -> out = ([ping], Some err)) /\
  (wb = None ->
   fst out = [ping; pong] /\
   (wc = None -> snd out = None) /\
   (forall err,
       wc = Some err ->
       (dynType err = ErrCloseSent \/ dynType err = NetError true ->
        snd out = None) /\
       (dynType err <> ErrCloseSent -> dynType err <> NetError true ->
        snd out = Some err))).
Proof.
  intros ping pong out. unfold out, pingHandler. split.
  - by intros err ->.
  - intros ->. destruct wc as [err|]; simpl.
    + split; [by destruct (dynType err) as [| |[]|]|].
      split; [done|]. intros ? [= <-]. split.
      * intros [-> | ->]; done.
      * intros H1 H2. by destruct (dynType err) as [| |[]|].
    + split; [done|]. split; [done|]. by intros.
Qed.

Lemma ping_handler_bridges_witness :
  pingHandler "beat" 5 7 None (Some (mkError ErrCloseSent "websocket: close sent"))
    = ([WriteControl connBackend PingMessage "beat" (5 + Second);
        WriteControl connPub PongMessage "beat" (7 + Second)], None) /\
  pingHandler "beat" 5 7 (Some unreachable) None
    = ([WriteControl connBackend PingMessage "beat" (5 + Second)], Some unreachable).
Proof.
  split.
  - destruct (ping_handler_bridges "beat" 5 7 None
                (Some (mkError ErrCloseSent "websocket: close sent")))
      as [_ H].
    destruct (H eq_refl) as (Hev & _ & Hc).
    destruct (Hc _ eq_refl) as [Hn _].
    apply injective_projections; [exact Hev|exact (Hn (or_introl eq_refl))].
  - destruct (ping_handler_bridges "beat" 5 7 (Some unreachable) None)
      as [H _].
    exact (H unreachable eq_refl).
Defined.

(** * The session API and shutdown *)

(** C10: [SendMessageByType] looks at the client handle only. With a nil
    handle it returns the not-established error and writes nothing; with a
    handle it writes the message to that connection and returns the result
    of the write, whatever the connected flag says. So after a session has
    ended, when the flag is false and the handle still set, a send goes out
    to the client; after [CloseProxy] it is refused. *)
Theorem send_depends_on_handle_only (notEst : error) w msgType data wr :
  (SendMessageByType notEst w msgType data wr =
     match ToClient w with
     | None => ([], Some notEst)
     | Some c => ([WriteMessage c msgType (Bytes data)], wr)
     end) /\
  (forall b,
      SendMessageByType notEst (setConnected b w) msgType data wr
        = SendMessageByType notEst w msgType data wr) /\
  (forall rw0 req (h h' : heap) env B a u resp errc err,
      Backend w = Some B -> B req h = (h', Ok (Some a)) -> h' !! a = Some u ->
      dial env = DialOk resp -> upgrade env = None ->
      relay env = Some (errc, err) ->
      let w' := proxy (ServeHTTP w rw0 req h env) in
      IsConnected w' = false /\
      SendMessageByType notEst w' msgType data wr
        = ([WriteMessage connPub msgType (Bytes data)], wr)) /\
  SendMessageByType notEst (fst (fst (CloseProxy w))) msgType data wr
    = ([], Some notEst).
Proof.
  split; [|split; [|split]].
  - unfold SendMessageByType. destruct (ToClient w); [|done]. by destruct wr.
  - intros b. reflexivity.
  - intros rw0 req h h' env B a u resp errc err HB Hr Hu Hd Hup Hre w'.
    unfold w'. rewrite (ServeHTTP_resolved _ _ _ _ _ _ _ _ _ HB Hr Hu).
    rewrite Hd. simpl. rewrite Hup, Hre. simpl. split; [done|].
    unfold SendMessageByType. simpl. by destruct wr.
  - destruct (CloseProxy_after w) as (Hc & _ & _).
    unfold SendMessageByType. by rewrite Hc.
Qed.

Lemma send_depends_on_handle_only_witness :
  let w := NewProxy tunnelOptions in
  let env := mkWorld (DialOk unauthorized) None None (Some (errBackend, goingAway)) in
  let w' := proxy (ServeHTTP w freshRW chatRequest sampleHeap env) in
  IsConnected w' = false /\
  SendMessageByType notEstablished w' TextMessage "late" None
    = ([WriteMessage connPub TextMessage (Bytes "late")], None).
Proof.
  intros w env w'.
  destruct (send_depends_on_handle_only notEstablished w TextMessage "late" None)
    as (_ & _ & H & _).
  apply (H freshRW chatRequest sampleHeap
           (<[0%nat := overlay wsBackend chatRequest]> sampleHeap) env
           (backend tunnelOptions) 0%nat (overlay wsBackend chatRequest)
           unauthorized errBackend goingAway);
    reflexivity.
Defined.

(** C6 (amended): after a call of [CloseProxy] both connection handles are
    nil, so a second call closes no connection; the second call then
    panics in [close(w.StopBackendChan)] and leaves the proxy as it was. *)
Theorem close_proxy_second_call_panics w :
  let w1 := fst (fst (CloseProxy w)) in
  ToClient w1 = None /\ ToBackend w1 = None /\
  CloseProxy w1 = (w1, [], Panicked).
Proof.
  intros w1. destruct (CloseProxy_after w) as (Hc & Hb & Hs).
  fold w1 in Hc, Hb, Hs. split; [done|]. split; [done|].
  unfold CloseProxy. by rewrite Hb, Hc, Hs.
Qed.

(** C6, as stated, fails on a live session: the first call closes both
    connections and completes, the second call panics. *)
Lemma close_proxy_twice_panics :
  CloseProxy liveProxy
    = (setStopClientChan ClosedChan
         (setStopBackendChan ClosedChan
            (setToClient None (setToBackend None liveProxy))),
       [Close connBackend; Close connPub], Done) /\
  snd (CloseProxy (fst (fst (CloseProxy liveProxy)))) = Panicked.
Proof. split; reflexivity. Qed.

(** * Natural-tunnel mode and the resolver on a sample request *)

(** C3: in natural-tunnel mode, for a request carrying [X-Custom] besides
    the handshake headers, the stripped clone holds [X-Custom] alone and the
    dialer receives it with the forwarded-for and forwarded-proto entries;
    the upgrader receives the nil header set, not the stripped clone. *)
Theorem natural_tunnel_upgrade_gets_nil_header :
  let w := NewProxy tunnelOptions in
  strip (Clone (Request.Header chatRequest)) = {[ "X-Custom" := ["v"] ]} /\
  upgradeHeader w chatRequest switching = None /\
  events (ServeHTTP w freshRW chatRequest sampleHeap sessionWorld)
    = [Dial false (overlay wsBackend chatRequest)
         {[ "X-Custom" := ["v"]; "X-Forwarded-For" := ["10.0.0.7"];
            "X-Forwarded-Proto" := ["http"] ]};
       Upgrade false None;
       SetPingHandler].
Proof.
  intros w. split; [by vm_compute|]. split; [reflexivity|].
  unfold w.
  rewrite (ServeHTTP_resolved _ _ _ sampleHeap
             (<[0%nat := overlay wsBackend chatRequest]> sampleHeap) _
             (backend tunnelOptions) 0%nat (overlay wsBackend chatRequest));
    [|reflexivity|reflexivity|apply lookup_insert_eq].
  by vm_compute.
Qed.

(** C5: resolving a request writes the request's path, query and fragment
    into the configured URL object and returns the configured pointer; a
    later request overwrites what an earlier resolution returned. *)
Theorem backend_overwrites_configured_url :
  sampleHeap !! 0%nat = Some wsBackend /\
  backend tunnelOptions chatRequest sampleHeap
    = ({[ 0%nat := url.mk "ws" "" None "backend:3000" "/chat" "" false
                     "room=1" "top" "" ]}, Ok (Some 0%nat)) /\
  backend tunnelOptions lobbyRequest
      (fst (backend tunnelOptions chatRequest sampleHeap))
    = ({[ 0%nat := url.mk "ws" "" None "backend:3000" "/lobby" "" false
                     "" "" "" ]}, Ok (Some 0%nat)).
Proof. split; [reflexivity|]. split; by vm_compute. Qed.

(** * Further properties of the relay loops *)

Lemma run_eta r : mkRun (trace r) (errcBuf r) (final r) = r.
Proof. by destruct r. Qed.

Lemma emit_nil r : emit [] r = r.
Proof. unfold emit. simpl. apply run_eta. Qed.

(** A loop that is still running at the end of a script goes on with what
    comes next, from the channel content it has reached; a loop that has
    returned, exited or parked ignores it. *)
Lemma forward_app pre :
  forall more buf,
    forwardLoop (pre ++ more) buf =
      match final (forwardLoop pre buf) with
      | Running =>
          emit (trace (forwardLoop pre buf))
            (forwardLoop more (errcBuf (forwardLoop pre buf)))
      | _ => forwardLoop pre buf
      end.
Proof.
  unfold forwardLoop.
  induction pre as [|k pre IH]; intros more buf.
  - simpl. by rewrite emit_nil.
  - destruct k as [|[t m|err] w|]; simpl.
    + done.
    + destruct w as [e|].
      * by destruct buf.
      * rewrite IH.
        destruct (replicateWebsocketProxyToServer _ _ _ pre buf) as [tr b []];
          simpl; done.
    + destruct buf as [|e buf]; [|done].
      rewrite IH.
      destruct (replicateWebsocketProxyToServer _ _ _ pre [err]) as [tr b []];
        simpl; done.
    + apply IH.
Qed.

Lemma intercept_app viewer (pre : list tick) :
  forall more buf,
    let loop := replicateWebsocketClientToProxy viewer connPub connBackend
                  errClient in
    loop (pre ++ more)%list buf =
      match final (loop pre buf) with
      | Running => emit (trace (loop pre buf)) (loop more (errcBuf (loop pre buf)))
      | _ => loop pre buf
      end.
Proof.
  induction pre as [|k pre IH]; intros more buf; simpl.
  - by rewrite emit_nil.
  - destruct k as [|[t m|err] w|]; simpl.
    + done.
    + simpl in IH. rewrite IH.
      destruct (replicateWebsocketClientToProxy _ _ _ _ pre buf) as [tr b []];
        simpl; try done; unfold emit; simpl; by rewrite <- app_assoc.
    + destruct buf as [|e buf]; [|done].
      simpl in IH. rewrite IH.
      destruct (replicateWebsocketClientToProxy _ _ _ _ pre [err]) as [tr b []];
        simpl; done.
    + apply IH.
Qed.

Lemma intercept_failure_at viewer script :
  forall buf i err,
    let r := replicateWebsocketClientToProxy viewer connPub connBackend
               errClient script buf in
    trace r !! i = Some (ReadMessage connBackend (ReadErr err)) ->
    (trace r !! S i = Some (Send errClient err) /\
     trace r !! S (S i)
       = Some (WriteMessage connPub CloseMessage (closeMessage err))) \/
    (trace r !! S i = None /\ final r = Parked /\ errcBuf r <> []).
Proof.
  induction script as [|k rest IH]; intros buf i err; [done|].
  destruct k as [|[t' m'|e] w|]; simpl.
  - destruct i as [|i]; simpl; [inversion 1|done].
  - destruct ((t' =? 1) && viewer); simpl.
    + destruct i as [|[|i]]; simpl; intros H; simplify_eq. by apply IH.
    + destruct i as [|i]; simpl; intros H; simplify_eq. by apply IH.
  - destruct buf; simpl.
    + destruct i as [|[|[|i]]]; simpl; intros H; simplify_eq.
      * by left.
      * by apply IH.
    + destruct i as [|i]; simpl; intros H; simplify_eq. by right.
  - apply IH.
Qed.

Lemma forward_events script :
  forall buf, Forall forwardEvent (trace (forwardLoop script buf)).
Proof.
  unfold forwardLoop.
  induction script as [|k rest IH]; intros buf; simpl; [constructor|].
  destruct k as [|[t m|err] w|]; simpl.
  - by repeat constructor.
  - destruct w as [e|].
    + destruct buf; by repeat constructor.
    + constructor; [done|]. constructor; [done|]. apply IH.
  - destruct buf; simpl.
    + constructor; [done|]. constructor; [done|]. constructor; [done|].
      apply IH.
    + by repeat constructor.
  - apply IH.
Qed.

Lemma forward_final script :
  forall buf,
    let r := forwardLoop script buf in
    (final r = Returned -> stops script = true) /\
    (final r = Exited ->
     exists tr t m e,
       trace r = (tr ++ [ReadMessage connPub (ReadOk t m);
                         WriteMessage connBackend t (Bytes m);
                         Send errBackend e])%list /\
       errcBuf r = [e]).
Proof.
  unfold forwardLoop.
  induction script as [|k rest IH]; intros buf; simpl; [done|].
  destruct k as [|[t m|err] w|]; simpl.
  - done.
  - destruct w as [e|].
    + destruct buf; simpl; split; try done.
      intros _. by exists [], t, m, e.
    + destruct (IH buf) as [H1 H2]. split; [done|].
      intros H. destruct (H2 H) as (tr & t' & m' & e & Ht & Hb).
      exists (ReadMessage connPub (ReadOk t m)
              :: WriteMessage connBackend t (Bytes m) :: tr), t', m', e.
      split; [|exact Hb]. simpl. do 2 f_equal. exact Ht.
  - destruct buf; simpl; [|done].
    destruct (IH [err]) as [H1 H2]. split; [done|].
    intros H. destruct (H2 H) as (tr & t' & m' & e & Ht & Hb).
    exists (ReadMessage connPub (ReadErr err) :: Send errBackend err
            :: WriteMessage connBackend CloseMessage (closeMessage err) :: tr),
           t', m', e.
    split; [|exact Hb]. simpl. do 3 f_equal. exact Ht.
  - apply IH.
Qed.

Lemma intercept_final viewer script :
  forall buf,
    let r := replicateWebsocketClientToProxy viewer connPub connBackend
               errClient script buf in
    final r <> Exited /\ (final r = Returned -> stops script = true).
Proof.
  induction script as [|k rest IH]; intros buf; simpl; [done|].
  destruct k as [|[t m|err] w|]; simpl.
  - done.
  - apply IH.
  - destruct buf; simpl; [apply IH|done].
  - apply IH.
Qed.

(** X5: after every failed read of the intercept loop the loop reports the
    error on the client-side error channel and then writes a close frame to
    the client, built from the code and reason of a close error whose code
    is not 1005 and from the normal-closure code with the error text
    otherwise; when the channel is still full it stays parked in the
    report and writes nothing. *)
Theorem intercept_read_failure_reported w script buf i err :
  let r := interceptLoop w script buf in
  trace r !! i = Some (ReadMessage connBackend (ReadErr err)) ->
  (exists code text,
      closeFrameFor err code text /\
      trace r !! S i = Some (Send errClient err) /\
      trace r !! S (S i)
        = Some (WriteMessage connPub CloseMessage (FormatCloseMessage code text))) \/
  (trace r !! S i = None /\ final r = Parked /\ errcBuf r <> []).
Proof.
  intros r Hi. destruct (closeMessage_spec err) as (code & text & Hm & Hf).
  destruct (intercept_failure_at (Viewer w) script buf i err Hi) as [[H1 H2]|H].
  - left. exists code, text. rewrite <- Hm. done.
  - by right.
Qed.

Lemma intercept_read_failure_reported_witness :
  trace (interceptLoop liveProxy eventThenGone []) !! 2%nat
    = Some (ReadMessage connBackend (ReadErr goingAway)) /\
  exists code text,
    closeFrameFor goingAway code text /\
    trace (interceptLoop liveProxy eventThenGone []) !! 3%nat
      = Some (Send errClient goingAway) /\
    trace (interceptLoop liveProxy eventThenGone []) !! 4%nat
      = Some (WriteMessage connPub CloseMessage (FormatCloseMessage code text)).
Proof.
  split; [reflexivity|].
  destruct (intercept_read_failure_reported liveProxy eventThenGone [] 2%nat
              goingAway eq_refl) as [H|[H _]].
  - exact H.
  - discriminate H.
Defined.

(** X6: when a loop that is still running finds its stop channel ready, it
    writes one close frame with the text "Closed by proxy" to its
    destination and returns: it reads nothing, reports nothing, leaves the
    error channel as it is, and whatever the peers would have sent next is
    not looked at. *)
Theorem stop_signal_closes_and_returns w pre rest buf :
  (final (forwardLoop pre buf) = Running ->
   forwardLoop (pre ++ StopReady :: rest) buf
     = mkRun (trace (forwardLoop pre buf) ++ [closedByProxy connBackend])
         (errcBuf (forwardLoop pre buf)) Returned) /\
  (final (interceptLoop w pre buf) = Running ->
   interceptLoop w (pre ++ StopReady :: rest) buf
     = mkRun (trace (interceptLoop w pre buf) ++ [closedByProxy connPub])
         (errcBuf (interceptLoop w pre buf)) Returned).
Proof.
  split; intros Hr.
  - rewrite forward_app, Hr. reflexivity.
  - unfold interceptLoop in *. rewrite intercept_app. simpl. rewrite Hr.
    reflexivity.
Qed.

Lemma stop_signal_closes_and_returns_witness :
  forwardLoop [Default (ReadOk TextMessage "ping-data") None; StopReady;
               Default (ReadOk TextMessage "never read") None] []
    = mkRun [ReadMessage connPub (ReadOk TextMessage "ping-data");
             WriteMessage connBackend TextMessage (Bytes "ping-data");
             closedByProxy connBackend] [] Returned /\
  interceptLoop liveProxy
      [Default (ReadOk TextMessage "event-A") None; StopReady;
       Default (ReadOk TextMessage "never read") None] []
    = mkRun [ReadMessage connBackend (ReadOk TextMessage "event-A");
             HandleMessage "event-A"; closedByProxy connPub] [] Returned.
Proof.
  destruct (stop_signal_closes_and_returns liveProxy
              [Default (ReadOk TextMessage "ping-data") None]
              [Default (ReadOk TextMessage "never read") None] []) as [Hf _].
  destruct (stop_signal_closes_and_returns liveProxy
              [Default (ReadOk TextMessage "event-A") None]
              [Default (ReadOk TextMessage "never read") None] []) as [_ Hi].
  split; [exact (Hf eq_refl)|exact (Hi eq_refl)].
Defined.

(** X7: when the write of a message to the backend fails while the error
    channel is empty, the forward loop reports the write error and leaves
    the loop: nothing that follows in the run is read. Conversely, a
    forward loop that has left through its exit flag ends its trace with a
    read, the write of that message and the report, and holds that error in
    its channel. *)
Theorem forward_write_failure_exits pre t m e rest buf :
  (final (forwardLoop pre buf) = Running ->
   errcBuf (forwardLoop pre buf) = [] ->
   forwardLoop (pre ++ Default (ReadOk t m) (Some e) :: rest) buf
     = mkRun (trace (forwardLoop pre buf) ++
              [ReadMessage connPub (ReadOk t m);
               WriteMessage connBackend t (Bytes m); Send errBackend e])
         [e] Exited) /\
  (forall script,
      final (forwardLoop script buf) = Exited ->
      exists tr t' m' e',
        trace (forwardLoop script buf)
          = (tr ++ [ReadMessage connPub (ReadOk t' m');
                    WriteMessage connBackend t' (Bytes m');
                    Send errBackend e'])%list /\
        errcBuf (forwardLoop script buf) = [e']).
Proof.
  split.
  - intros Hr Hb. rewrite forward_app, Hr, Hb. reflexivity.
  - intros script. apply forward_final.
Qed.

Lemma forward_write_failure_exits_witness :
  forwardLoop writeFails []
    = mkRun [ReadMessage connPub (ReadOk TextMessage "one");
             WriteMessage connBackend TextMessage (Bytes "one");
             ReadMessage connPub (ReadOk TextMessage "two");
             WriteMessage connBackend TextMessage (Bytes "two");
             Send errBackend brokenPipe] [brokenPipe] Exited.
Proof.
  destruct (forward_write_failure_exits
              [Default (ReadOk TextMessage "one") None] TextMessage "two"
              brokenPipe [Default (ReadOk TextMessage "three") None] [])
    as [H _].
  exact (H eq_refl eq_refl).
Defined.

Lemma forward_exit_write_failed script :
  forall buf,
    final (forwardLoop script buf) = Exited -> writeFailed script = true.
Proof.
  unfold forwardLoop.
  induction script as [|k rest IH]; intros buf; simpl; [done|].
  destruct k as [|[t m|err] w|]; simpl.
  - done.
  - destruct w as [e|]; [done|]. apply IH.
  - destruct buf; simpl; [apply IH|done].
  - apply IH.
Qed.

Lemma forward_running_reads_every_turn script :
  forall buf,
    final (forwardLoop script buf) = Running ->
    readCount (trace (forwardLoop script buf)) = turns script.
Proof.
  unfold forwardLoop, readCount, turns.
  induction script as [|k rest IH]; intros buf; simpl; [done|].
  destruct k as [|[t m|err] w|]; unfold emit; simpl.
  - done.
  - destruct w as [e|]; [by destruct buf|].
    simpl. intros Hr. f_equal. by apply IH.
  - destruct buf; simpl; [|done].
    intros Hr. f_equal. by apply IH.
  - apply IH.
Qed.

Lemma intercept_running_reads_every_turn viewer script :
  forall buf,
    let r := replicateWebsocketClientToProxy viewer connPub connBackend
               errClient script buf in
    final r = Running -> readCount (trace r) = turns script.
Proof.
  unfold readCount, turns.
  induction script as [|k rest IH]; intros buf; simpl; [done|].
  destruct k as [|[t m|err] w|]; unfold emit; simpl.
  - done.
  - intros Hr. f_equal.
    destruct ((t =? 1) && viewer); simpl; by apply IH.
  - destruct buf; simpl; [|done].
    intros Hr. f_equal. by apply IH.
  - apply IH.
Qed.

(** X8: how the goroutines of the relay end when the stop channel is never
    ready. The intercept loop never leaves its loop: at the end of every
    such script, whatever errors it has read, it is still looping or is
    parked in a report on the full error channel. The forward loop leaves
    its loop only through a failed write to the backend: it is still
    looping, parked in a report, or has exited after a write that failed;
    in a script without a failed write it has not ended either. A loop
    that is still looping has read at every turn of the script, the turns
    after a failed read included. *)
Theorem loops_end_only_on_stop_or_failed_write w script buf :
  stops script = false ->
  (final (interceptLoop w script buf) = Running \/
   final (interceptLoop w script buf) = Parked) /\
  (final (forwardLoop script buf) = Running \/
   final (forwardLoop script buf) = Parked \/
   (final (forwardLoop script buf) = Exited /\ writeFailed script = true)) /\
  (writeFailed script = false ->
   final (forwardLoop script buf) = Running \/
   final (forwardLoop script buf) = Parked) /\
  (final (interceptLoop w script buf) = Running ->
   readCount (trace (interceptLoop w script buf)) = turns script) /\
  (final (forwardLoop script buf) = Running ->
   readCount (trace (forwardLoop script buf)) = turns script).
Proof.
  intros Hs.
  assert (final (forwardLoop script buf) = Running \/
          final (forwardLoop script buf) = Parked \/
          (final (forwardLoop script buf) = Exited /\ writeFailed script = true))
    as Hf.
  { pose proof (forward_exit_write_failed script buf) as He.
    pose proof (proj1 (forward_final script buf)) as Hr.
    destruct (final (forwardLoop script buf)); auto.
    specialize (Hr eq_refl). congruence. }
  split; [|split; [exact Hf|split; [|split]]].
  - destruct (intercept_final (Viewer w) script buf) as [H1 H2].
    unfold interceptLoop.
    destruct (final (replicateWebsocketClientToProxy _ _ _ _ script buf));
      auto.
    + specialize (H2 eq_refl). congruence.
    + done.
  - intros Hw. destruct Hf as [H|[H|[_ H]]]; auto. congruence.
  - apply intercept_running_reads_every_turn.
  - apply forward_running_reads_every_turn.
Qed.

Lemma loops_end_only_on_stop_or_failed_write_witness :
  stops [Default (ReadErr goingAway) None; Taken; Default (ReadErr goingAway) None]
    = false /\
  final (interceptLoop liveProxy
           [Default (ReadErr goingAway) None; Taken;
            Default (ReadErr goingAway) None] []) = Running /\
  readCount (trace (interceptLoop liveProxy
                      [Default (ReadErr goingAway) None; Taken;
                       Default (ReadErr goingAway) None] [])) = 2%nat /\
  stops writeFails = false /\
  final (forwardLoop writeFails []) = Exited /\ writeFailed writeFails = true.
Proof.
  split; [reflexivity|].
  destruct (loops_end_only_on_stop_or_failed_write liveProxy
              [Default (ReadErr goingAway) None; Taken;
               Default (ReadErr goingAway) None] [] eq_refl)
    as ([Hi|Hi] & _ & _ & Hn & _); [|discriminate Hi].
  split; [exact Hi|]. split; [exact (Hn Hi)|]. split; [reflexivity|].
  destruct (loops_end_only_on_stop_or_failed_write liveProxy writeFails []
              eq_refl) as (_ & [Hf'|[Hf'|Hf']] & _);
    [discriminate Hf'|discriminate Hf'|exact Hf'].
Defined.

(** X9: the forward loop touches nothing but its own three ends: every
    event of a run is a read of the client, a write to the backend or a
    report on the backend-side error channel. It never calls the Viewer and
    never writes to the client. *)
Theorem forward_loop_stays_on_its_side script buf :
  let tr := trace (forwardLoop script buf) in
  Forall forwardEvent tr /\
  viewed tr = [] /\
  (forall t p, ~ In (WriteMessage connPub t p) tr).
Proof.
  intros tr. pose proof (forward_events script buf) as Hf. fold tr in Hf.
  split; [exact Hf|]. split.
  - clear -Hf. induction Hf as [|e l He _ IH]; [done|].
    unfold viewed in *. destruct e; simpl in *; done.
  - intros t p Hin. rewrite Forall_forall in Hf.
    apply list_elem_of_In in Hin. specialize (Hf _ Hin). simpl in Hf. done.
Qed.

(** * Further properties of the header negotiation *)

Lemma lookup_Add (h : header) key v k :
  Add h key v !! k
    = if decide (CanonicalHeaderKey key = k)
      then Some (Index h k ++ [v])%list else h !! k.
Proof.
  unfold Add, Index. rewrite lookup_insert. by case_decide; subst.
Qed.

Lemma lookup_Set_ (h : header) key v k :
  Set_ h key v !! k
    = if decide (CanonicalHeaderKey key = k) then Some [v] else h !! k.
Proof. unfold Set_. apply lookup_insert. Qed.

Lemma lookup_foldl_Add_ne key vs :
  forall (h : header) k,
    CanonicalHeaderKey key <> k ->
    foldl (fun h v => Add h key v) h vs !! k = h !! k.
Proof.
  induction vs as [|v vs IH]; intros h k Hk; simpl; [done|].
  rewrite IH by done. rewrite lookup_Add. by case_decide.
Qed.

Lemma lookup_foldl_Add_Some key vs :
  forall (h : header) l,
    h !! CanonicalHeaderKey key = Some l ->
    foldl (fun h v => Add h key v) h vs !! CanonicalHeaderKey key
      = Some (l ++ vs)%list.
Proof.
  induction vs as [|v vs IH]; intros h l Hl; simpl.
  - by rewrite app_nil_r.
  - rewrite (IH _ (l ++ [v])%list); [by rewrite <- app_assoc|].
    rewrite lookup_Add. rewrite decide_True by done.
    unfold Index. by rewrite Hl.
Qed.

(** Adding the values of a list under one key: nothing when the list is
    empty, otherwise the old values followed by the new ones. *)
Lemma lookup_foldl_Add_eq key vs (h : header) :
  foldl (fun h v => Add h key v) h vs !! CanonicalHeaderKey key
    = match vs with
      | [] => h !! CanonicalHeaderKey key
      | _ => Some (Index h (CanonicalHeaderKey key) ++ vs)%list
      end.
Proof.
  destruct vs as [|v vs]; [done|]. simpl.
  rewrite (lookup_foldl_Add_Some key vs _ (Index h (CanonicalHeaderKey key) ++ [v])%list).
  - by rewrite <- app_assoc.
  - rewrite lookup_Add. by rewrite decide_True.
Qed.

(** The default-mode request leg, key by key. *)
Lemma defaultRequestHeader_lookup req k :
  defaultRequestHeader req !! k =
    let hdr := Request.Header req in
    if decide (k = "Host") then
      if decide (Request.Host req = "") then None else Some [Request.Host req]
    else if decide (k = "Cookie") then
      match Index hdr "Cookie" with [] => None | vs => Some vs end
    else if decide (k = "Sec-Websocket-Protocol") then
      match Index hdr "Sec-Websocket-Protocol" with [] => None | vs => Some vs end
    else if decide (k = "Origin") then
      if decide (Get hdr "Origin" = "") then None else Some [Get hdr "Origin"]
    else if decide (k = "User-Agent") then
      if decide (Get hdr "User-Agent" = "") then None
      else Some [Get hdr "User-Agent"]
    else None.
Proof.
  unfold defaultRequestHeader.
  change (CanonicalHeaderKey "Sec-WebSocket-Protocol") with "Sec-Websocket-Protocol".
  change (CanonicalHeaderKey "Cookie") with "Cookie".
  set (ua := Get (Request.Header req) "User-Agent").
  set (og := Get (Request.Header req) "Origin").
  set (ps := Index (Request.Header req) "Sec-Websocket-Protocol").
  set (cs := Index (Request.Header req) "Cookie").
  set (h1 := if decide (ua = "") then (∅ : header) else Add ∅ "User-Agent" ua).
  set (h2 := if decide (og = "") then h1 else Add h1 "Origin" og).
  set (h3 := foldl (fun h prot => Add h "Sec-WebSocket-Protocol" prot) h2 ps).
  set (h4 := foldl (fun h cookie => Add h "Cookie" cookie) h3 cs).
  assert (forall j, h1 !! j =
            if decide (j = "User-Agent") then
              if decide (ua = "") then None else Some [ua]
            else None) as H1.
  { intros j. unfold h1. destruct (decide (ua = "")) as [Hu|Hu].
    - rewrite lookup_empty. by destruct (decide (j = "User-Agent")).
    - rewrite lookup_Add. change (CanonicalHeaderKey "User-Agent") with "User-Agent".
      destruct (decide ("User-Agent" = j)) as [<-|Hj]; [done|].
      rewrite lookup_empty. destruct (decide (j = "User-Agent")); [by subst|done]. }
  assert (forall j, h2 !! j =
            if decide (j = "Origin") then
              if decide (og = "") then None else Some [og]
            else h1 !! j) as H2.
  { intros j. unfold h2. destruct (decide (og = "")) as [Ho|Ho].
    - destruct (decide (j = "Origin")) as [->|]; [|done]. by rewrite H1.
    - rewrite lookup_Add. change (CanonicalHeaderKey "Origin") with "Origin".
      destruct (decide ("Origin" = j)) as [<-|Hj].
      + unfold Index. by rewrite H1.
      + destruct (decide (j = "Origin")); [by subst|done]. }
  assert (forall j, h3 !! j =
            if decide (j = "Sec-Websocket-Protocol") then
              match ps with [] => None | vs => Some vs end
            else h2 !! j) as H3.
  { intros j. unfold h3. destruct (decide (j = "Sec-Websocket-Protocol")) as [->|Hj].
    - pose proof (lookup_foldl_Add_eq "Sec-WebSocket-Protocol" ps h2) as Hi.
      change (CanonicalHeaderKey "Sec-WebSocket-Protocol")
        with "Sec-Websocket-Protocol" in Hi.
      rewrite Hi. unfold Index. rewrite H2, H1. by destruct ps.
    - apply lookup_foldl_Add_ne.
      change (CanonicalHeaderKey "Sec-WebSocket-Protocol")
        with "Sec-Websocket-Protocol". congruence. }
  assert (forall j, h4 !! j =
            if decide (j = "Cookie") then
              match cs with [] => None | vs => Some vs end
            else h3 !! j) as H4.
  { intros j. unfold h4. destruct (decide (j = "Cookie")) as [->|Hj].
    - pose proof (lookup_foldl_Add_eq "Cookie" cs h3) as Hi.
      change (CanonicalHeaderKey "Cookie") with "Cookie" in Hi.
      rewrite Hi. unfold Index. rewrite H3, H2, H1. by destruct cs.
    - apply lookup_foldl_Add_ne.
      change (CanonicalHeaderKey "Cookie") with "Cookie". congruence. }
  cbv zeta.
  destruct (decide (Request.Host req = "")) as [Hh|Hh].
  - rewrite H4, H3, H2, H1.
    destruct (decide (k = "Host")) as [->|]; [done|]. by destruct cs, ps.
  - rewrite lookup_Set_. change (CanonicalHeaderKey "Host") with "Host".
    destruct (decide ("Host" = k)) as [<-|Hk]; [done|].
    rewrite H4, H3, H2, H1.
    destruct (decide (k = "Host")); [by subst|by destruct cs, ps].
Qed.

(** The default-mode response leg, key by key. *)
Lemma defaultUpgradeHeader_lookup resp k :
  defaultUpgradeHeader resp !! k =
    let hdr := Response.Header resp in
    if decide (k = "Sec-Websocket-Accept") then
      if decide (Get hdr "Sec-Websocket-Accept" = "") then None
      else Some [Get hdr "Sec-Websocket-Accept"]
    else if decide (k = "Set-Cookie") then
      if decide (Get hdr "Set-Cookie" = "") then None
      else Some [Get hdr "Set-Cookie"]
    else if decide (k = "Sec-Websocket-Protocol") then
      if decide (Get hdr "Sec-Websocket-Protocol" = "") then None
      else Some [Get hdr "Sec-Websocket-Protocol"]
    else None.
Proof.
  unfold defaultUpgradeHeader. cbv zeta.
  set (p := Get (Response.Header resp) "Sec-Websocket-Protocol").
  set (c := Get (Response.Header resp) "Set-Cookie").
  set (a := Get (Response.Header resp) "Sec-Websocket-Accept").
  set (h1 := if decide (p = "") then (∅ : header)
             else Set_ ∅ "Sec-Websocket-Protocol" p).
  set (h2 := if decide (c = "") then h1 else Set_ h1 "Set-Cookie" c).
  assert (forall j, h1 !! j =
            if decide (j = "Sec-Websocket-Protocol") then
              if decide (p = "") then None else Some [p]
            else None) as H1.
  { intros j. unfold h1. destruct (decide (p = "")) as [Hp|Hp].
    - rewrite lookup_empty. by destruct (decide (j = "Sec-Websocket-Protocol")).
    - rewrite lookup_Set_.
      change (CanonicalHeaderKey "Sec-Websocket-Protocol")
        with "Sec-Websocket-Protocol".
      destruct (decide ("Sec-Websocket-Protocol" = j)) as [<-|Hj]; [done|].
      rewrite lookup_empty.
      destruct (decide (j = "Sec-Websocket-Protocol")); [by subst|done]. }
  assert (forall j, h2 !! j =
            if decide (j = "Set-Cookie") then
              if decide (c = "") then None else Some [c]
            else h1 !! j) as H2.
  { intros j. unfold h2. destruct (decide (c = "")) as [Hc|Hc].
    - destruct (decide (j = "Set-Cookie")) as [->|]; [|done]. by rewrite H1.
    - rewrite lookup_Set_. change (CanonicalHeaderKey "Set-Cookie") with "Set-Cookie".
      destruct (decide ("Set-Cookie" = j)) as [<-|Hj]; [done|].
      destruct (decide (j = "Set-Cookie")); [by subst|done]. }
  destruct (decide (a = "")) as [Ha|Ha].
  - rewrite H2, H1.
    destruct (decide (k = "Sec-Websocket-Accept")) as [->|]; done.
  - rewrite lookup_Set_.
    change (CanonicalHeaderKey "Sec-Websocket-Accept") with "Sec-Websocket-Accept".
    destruct (decide ("Sec-Websocket-Accept" = k)) as [<-|Hk]; [done|].
    rewrite H2, H1.
    destruct (decide (k = "Sec-Websocket-Accept")); [by subst|done].
Qed.

Lemma not_stripped_forwarded_for :
  "X-Forwarded-For" ∉ CanonicalHeaderKey <$> strippedNames.
Proof. rewrite list_elem_of_In. vm_compute. intuition discriminate. Qed.

(** X1: in default mode, when no Director is set, the header set handed
    to the dialer carries from the inbound request only the first
    User-Agent value, the first Origin value, every Sec-Websocket-Protocol
    value, every Cookie value and the request's host; any other inbound
    header, such as Authorization, is absent from it, and the only further
    entries are X-Forwarded-For and X-Forwarded-Proto. *)
Theorem default_request_header_allow_list w req :
  common.NaturalTunnel (Options w) = false -> Director w = None ->
  let hdr := Request.Header req in
  let h := requestHeader w req in
  Index h "User-Agent"
    = (if decide (Get hdr "User-Agent" = "") then [] else [Get hdr "User-Agent"]) /\
  Index h "Origin"
    = (if decide (Get hdr "Origin" = "") then [] else [Get hdr "Origin"]) /\
  Index h "Sec-Websocket-Protocol" = Index hdr "Sec-Websocket-Protocol" /\
  Index h "Cookie" = Index hdr "Cookie" /\
  Index h "Host"
    = (if decide (Request.Host req = "") then [] else [Request.Host req]) /\
  (forall k,
      k ∉ requestAllowList -> k <> "X-Forwarded-For" ->
      k <> "X-Forwarded-Proto" -> h !! k = None).
Proof.
  intros Hn Hd hdr h.
  assert (forall k, k <> "X-Forwarded-For" -> k <> "X-Forwarded-Proto" ->
                    h !! k = defaultRequestHeader req !! k) as Hk.
  { intros k H1 H2. unfold h, requestHeader. rewrite Hn, Hd.
    by apply forwarded_lookup. }
  repeat split.
  - unfold Index. rewrite Hk, defaultRequestHeader_lookup by done. simpl.
    fold hdr. by destruct (decide (Get hdr "User-Agent" = "")).
  - unfold Index. rewrite Hk, defaultRequestHeader_lookup by done. simpl.
    fold hdr. by destruct (decide (Get hdr "Origin" = "")).
  - unfold Index at 1. rewrite Hk, defaultRequestHeader_lookup by done. simpl.
    fold hdr. by destruct (Index hdr "Sec-Websocket-Protocol").
  - unfold Index at 1. rewrite Hk, defaultRequestHeader_lookup by done. simpl.
    fold hdr. by destruct (Index hdr "Cookie").
  - unfold Index. rewrite Hk, defaultRequestHeader_lookup by done. simpl.
    by destruct (decide (Request.Host req = "")).
  - intros k Hnot H1 H2. rewrite Hk, defaultRequestHeader_lookup by done.
    unfold requestAllowList in Hnot. rewrite !not_elem_of_cons in Hnot.
    destruct Hnot as (Ha & Hb & Hc & Hd' & He & _). cbv zeta.
    rewrite !decide_False by done. done.
Qed.

Lemma default_request_header_allow_list_witness :
  let h := requestHeader (NewProxy defaultOptions) browserRequest in
  Index h "User-Agent" = ["Mozilla/5.0"] /\
  Index h "Cookie" = ["a=1"; "b=2"] /\
  Index h "Host" = ["proxy.example"] /\
  h !! "Authorization" = None.
Proof.
  intros h.
  destruct (default_request_header_allow_list (NewProxy defaultOptions)
              browserRequest eq_refl eq_refl) as (Hu & _ & _ & Hc & Hh & Ho).
  split; [exact Hu|]. split; [exact Hc|]. split; [exact Hh|].
  apply Ho; [|discriminate|discriminate].
  rewrite list_elem_of_In. simpl. intuition discriminate.
Defined.

(** X2: when no Director is set, in either mode, the header set handed to
    the dialer has exactly one X-Forwarded-Proto value, "https" when the
    inbound connection is TLS and "http" otherwise, whatever the client
    sent under that name. When the peer address splits into host and port,
    it has exactly one X-Forwarded-For value: the inbound values joined by
    comma and space and followed by the peer host, or the peer host alone
    when the request has none. When the address does not split, the entry
    is the inbound one in natural-tunnel mode and absent in default mode. *)
Theorem forwarded_headers_are_set w req :
  Director w = None ->
  let h := requestHeader w req in
  Index h "X-Forwarded-Proto"
    = [if Request.TLS req then "https" else "http"] /\
  (forall clientIP,
      Request.SplitHostPort req = Some clientIP ->
      Index h "X-Forwarded-For"
        = [match Request.Header req !! "X-Forwarded-For" with
           | Some prior => Join prior ", " ++ ", " ++ clientIP
           | None => clientIP
           end]) /\
  (Request.SplitHostPort req = None ->
   h !! "X-Forwarded-For"
     = if common.NaturalTunnel (Options w)
       then Request.Header req !! "X-Forwarded-For" else None).
Proof.
  intros Hd h. unfold h, requestHeader. rewrite Hd.
  set (h0 := if common.NaturalTunnel (Options w)
             then strip (Clone (Request.Header req))
             else defaultRequestHeader req).
  repeat split.
  - unfold forwarded, Index.
    destruct (Request.TLS req); rewrite lookup_Set_; by rewrite decide_True.
  - intros clientIP Hs. unfold forwarded, Index. rewrite Hs.
    destruct (Request.TLS req); rewrite !lookup_Set_;
      change (CanonicalHeaderKey "X-Forwarded-Proto") with "X-Forwarded-Proto";
      change (CanonicalHeaderKey "X-Forwarded-For") with "X-Forwarded-For";
      rewrite ?decide_False by done; by rewrite decide_True.
  - intros Hs. unfold forwarded. rewrite Hs.
    assert (h0 !! "X-Forwarded-For"
              = if common.NaturalTunnel (Options w)
                then Request.Header req !! "X-Forwarded-For" else None) as H0.
    { unfold h0. destruct (common.NaturalTunnel (Options w)).
      - apply strip_keeps, not_stripped_forwarded_for.
      - by rewrite defaultRequestHeader_lookup. }
    destruct (Request.TLS req); rewrite !lookup_Set_;
      change (CanonicalHeaderKey "X-Forwarded-Proto") with "X-Forwarded-Proto";
      rewrite ?decide_False by done; exact H0.
Qed.

Lemma forwarded_headers_are_set_witness :
  let h := requestHeader (NewProxy tunnelOptions) browserRequest in
  Index h "X-Forwarded-Proto" = ["https"] /\
  Index h "X-Forwarded-For" = ["203.0.113.9, 10.0.0.7"].
Proof.
  intros h.
  destruct (forwarded_headers_are_set (NewProxy tunnelOptions) browserRequest
              eq_refl) as (Hp & Hf & _).
  split; [exact Hp|exact (Hf "10.0.0.7" eq_refl)].
Defined.

(** X3: in natural-tunnel mode, when no Director is set, the header set
    handed to the dialer holds none of the eleven stripped names and passes
    every other inbound entry on unchanged, apart from X-Forwarded-For and
    X-Forwarded-Proto. *)
Theorem natural_tunnel_passes_other_headers w req :
  common.NaturalTunnel (Options w) = true -> Director w = None ->
  (forall name,
      name ∈ strippedNames ->
      requestHeader w req !! CanonicalHeaderKey name = None) /\
  (forall k,
      k ∉ CanonicalHeaderKey <$> strippedNames ->
      k <> "X-Forwarded-For" -> k <> "X-Forwarded-Proto" ->
      requestHeader w req !! k = Request.Header req !! k).
Proof.
  intros Hn Hd. split.
  - intros name Hin. by apply requestHeader_stripped.
  - intros k Hk H1 H2. unfold requestHeader. rewrite Hn, Hd.
    rewrite forwarded_lookup by done. by apply strip_keeps.
Qed.

Lemma natural_tunnel_passes_other_headers_witness :
  let h := requestHeader (NewProxy tunnelOptions) browserRequest in
  h !! "Authorization" = Some ["Bearer secret"] /\
  h !! "Cookie" = Some ["a=1"; "b=2"] /\
  h !! "Te" = None.
Proof.
  intros h. unfold h.
  destruct (natural_tunnel_passes_other_headers (NewProxy tunnelOptions)
              browserRequest eq_refl eq_refl) as [Hs Hk].
  split; [|split].
  - rewrite (Hk "Authorization"); [reflexivity| |discriminate|discriminate].
    rewrite list_elem_of_In. vm_compute. intuition discriminate.
  - rewrite (Hk "Cookie"); [reflexivity| |discriminate|discriminate].
    rewrite list_elem_of_In. vm_compute. intuition discriminate.
  - apply (Hs "TE"). rewrite list_elem_of_In. simpl. tauto.
Defined.

(** X4: in default mode the header set handed to the upgrader holds at
    most the three names Sec-Websocket-Protocol, Set-Cookie and
    Sec-Websocket-Accept, each with one value, the first value the backend's
    handshake response has under that name; of several Set-Cookie values
    only the first is passed on, and no other response header is. *)
Theorem default_upgrade_header_allow_list w req resp :
  common.NaturalTunnel (Options w) = false ->
  exists h,
    upgradeHeader w req resp = Some h /\
    (forall name,
        name ∈ upgradeAllowList ->
        Index h name
          = if decide (Get (Response.Header resp) name = "") then []
            else [Get (Response.Header resp) name]) /\
    (forall k, k ∉ upgradeAllowList -> h !! k = None).
Proof.
  intros Hn. exists (defaultUpgradeHeader resp). split.
  - unfold upgradeHeader. by rewrite Hn.
  - split.
    + intros name Hin. unfold upgradeAllowList in Hin.
      rewrite !elem_of_cons, elem_of_nil in Hin.
      unfold Index. rewrite defaultUpgradeHeader_lookup. cbv zeta.
      destruct Hin as [->|[->|[->|[]]]].
      * rewrite (decide_False (P := "Sec-Websocket-Protocol" = "Sec-Websocket-Accept"))
          by discriminate.
        rewrite (decide_False (P := "Sec-Websocket-Protocol" = "Set-Cookie"))
          by discriminate.
        rewrite (decide_True (P := "Sec-Websocket-Protocol" = "Sec-Websocket-Protocol"))
          by reflexivity.
        by destruct (decide (Get (Response.Header resp) "Sec-Websocket-Protocol" = "")).
      * rewrite (decide_False (P := "Set-Cookie" = "Sec-Websocket-Accept"))
          by discriminate.
        rewrite (decide_True (P := "Set-Cookie" = "Set-Cookie")) by reflexivity.
        by destruct (decide (Get (Response.Header resp) "Set-Cookie" = "")).
      * rewrite (decide_True (P := "Sec-Websocket-Accept" = "Sec-Websocket-Accept"))
          by reflexivity.
        by destruct (decide (Get (Response.Header resp) "Sec-Websocket-Accept" = "")).
    + intros k Hnot. unfold upgradeAllowList in Hnot.
      rewrite !not_elem_of_cons in Hnot. destruct Hnot as (Ha & Hb & Hc & _).
      rewrite defaultUpgradeHeader_lookup. cbv zeta.
      by rewrite !decide_False.
Qed.

Lemma default_upgrade_header_allow_list_witness :
  exists h,
    upgradeHeader (NewProxy defaultOptions) browserRequest twoCookies = Some h /\
    Index h "Set-Cookie" = ["sid=1"] /\
    h !! "X-Backend" = None.
Proof.
  destruct (default_upgrade_header_allow_list (NewProxy defaultOptions)
              browserRequest twoCookies eq_refl) as (h & Hh & Hi & Ho).
  exists h. split; [exact Hh|]. split.
  - rewrite (Hi "Set-Cookie") by (rewrite list_elem_of_In; simpl; tauto).
    by vm_compute.
  - apply Ho. rewrite list_elem_of_In. simpl. intuition discriminate.
Defined.

(** * Further properties of the handler *)

(** Runs [ServeHTTP] through every answer of the resolver, the dialer, the
    upgrader and the relay. *)
Ltac serve_cases w req h env :=
  unfold ServeHTTP;
  destruct (Backend w) as [?B|];
    [destruct (B req h) as [?h' [[?a|]|]];
       [destruct (h' !! a) as [?u|];
          [destruct (dial env) as [?resp|?err [?resp|]];
             [destruct (upgrade env) as [?err|];
                [|destruct (relay env) as [[?errc ?err]|]]| |]|]| |]|];
  simpl.

(** The handler never touches the stop channels, the resolver or the
    options. *)
Lemma ServeHTTP_keeps w rw0 req (h : heap) env :
  StopBackendChan (proxy (ServeHTTP w rw0 req h env)) = StopBackendChan w /\
  StopClientChan (proxy (ServeHTTP w rw0 req h env)) = StopClientChan w /\
  Options (proxy (ServeHTTP w rw0 req h env)) = Options w.
Proof. serve_cases w req h env; done. Qed.

Lemma CloseProxy_nil_channel w :
  StopBackendChan w = NilChan -> snd (CloseProxy w) = Panicked.
Proof.
  intros Hs. unfold CloseProxy.
  destruct w as [? ? ? ? ? ? ? ? ? sc sb [c|] [b|]]; simpl in *; by subst.
Qed.

(** X10: when the dial succeeds and the upgrade of the inbound connection
    fails, the handler returns after the dial and the one upgrade attempt:
    it writes nothing to the response writer, stores neither connection in
    the proxy, leaves the connected flag alone, and does not close the
    backend connection it has just dialed. *)
Theorem upgrade_failure_abandons_request w rw0 req (h h' : heap) env B a u resp err :
  Backend w = Some B -> B req h = (h', Ok (Some a)) -> h' !! a = Some u ->
  dial env = DialOk resp -> upgrade env = Some err ->
  let s := ServeHTTP w rw0 req h env in
  proxy s = w /\ rw s = rw0 /\ state s = Done /\
  events s = [Dial (Dialer w) u (requestHeader w req);
              Upgrade (Upgrader w) (upgradeHeader w req resp)].
Proof.
  intros HB Hr Hu Hd Hup s. unfold s.
  rewrite (ServeHTTP_resolved _ _ _ _ _ _ _ _ _ HB Hr Hu), Hd. simpl.
  by rewrite Hup.
Qed.

Lemma upgrade_failure_abandons_request_witness :
  let env := mkWorld (DialOk switching) None (Some badHandshake) None in
  let s := ServeHTTP (NewProxy tunnelOptions) freshRW chatRequest sampleHeap env in
  ToBackend (proxy s) = None /\ rw s = freshRW /\
  events s = [Dial false (overlay wsBackend chatRequest)
                (requestHeader (NewProxy tunnelOptions) chatRequest);
              Upgrade false None].
Proof.
  intros env s.
  destruct (upgrade_failure_abandons_request (NewProxy tunnelOptions) freshRW
              chatRequest sampleHeap
              (<[0%nat := overlay wsBackend chatRequest]> sampleHeap) env
              (backend tunnelOptions) 0%nat (overlay wsBackend chatRequest)
              switching badHandshake eq_refl
              (backend_resolves tunnelOptions chatRequest sampleHeap 0%nat
                 wsBackend eq_refl eq_refl)
              (lookup_insert_eq _ _ _) eq_refl eq_refl)
    as (Hp & Hrw & _ & He).
  split; [|split].
  - fold s in Hp. by rewrite Hp.
  - exact Hrw.
  - exact He.
Defined.

(** X11: once dial and upgrade have succeeded the proxy holds both
    connections and the response writer is left untouched. While no relay
    loop has reported an error the handler waits with the connected flag
    set and has deregistered nothing. When an error arrives it clears the
    flag, keeps both handles, and calls the Manager's [RemoveConnection]
    with the proxy's identifier exactly when a Manager is configured and
    the identifier is not empty. *)
Theorem session_lifecycle w rw0 req (h h' : heap) env B a u resp :
  Backend w = Some B -> B req h = (h', Ok (Some a)) -> h' !! a = Some u ->
  dial env = DialOk resp -> upgrade env = None ->
  let s := ServeHTTP w rw0 req h env in
  ToClient (proxy s) = Some connPub /\
  ToBackend (proxy s) = Some connBackend /\
  rw s = rw0 /\
  (relay env = None ->
   state s = Waiting /\ IsConnected (proxy s) = true /\
   forall id, ~ In (RemoveConnection id) (events s)) /\
  (forall errc err,
      relay env = Some (errc, err) ->
      state s = Done /\ IsConnected (proxy s) = false /\
      (forall id,
          In (RemoveConnection id) (events s) <->
          id = UniqueId w /\ Manager w = true /\ UniqueId w <> "")).
Proof.
  intros HB Hr Hu Hd Hup s. unfold s.
  rewrite (ServeHTTP_resolved _ _ _ _ _ _ _ _ _ HB Hr Hu), Hd. simpl.
  rewrite Hup.
  destruct (relay env) as [[errc err]|] eqn:Hre; simpl.
  - do 3 (split; [done|]). split; [done|].
    intros ? ? [= <- <-]. do 2 (split; [done|]).
    intros id. destruct (Manager w); simpl.
    + destruct (UniqueId w) as [|c id'] eqn:Hid; simpl.
      * split; [intros [H|[H|[H|[]]]]; discriminate H|].
        intros (_ & _ & H). by destruct H.
      * split.
        -- intros [H|[H|[H|[H|[]]]]]; try discriminate H.
           injection H as <-. done.
        -- intros (-> & _ & _). do 3 right. by left.
    + split; [intros [H|[H|[H|[]]]]; discriminate H|].
      intros (_ & H & _). discriminate H.
  - do 3 (split; [done|]). split; [|done].
    intros _. do 2 (split; [done|]).
    intros id [H|[H|[H|[]]]]; discriminate H.
Qed.

Lemma session_lifecycle_witness :
  let w := mkProxy "s-1" None true true false false (Some (backend tunnelOptions))
             tunnelOptions false NilChan NilChan None None in
  let s := ServeHTTP w freshRW chatRequest sampleHeap sessionWorld in
  state s = Done /\ IsConnected (proxy s) = false /\
  In (RemoveConnection "s-1") (events s).
Proof.
  intros w s.
  destruct (session_lifecycle w freshRW chatRequest sampleHeap
              (<[0%nat := overlay wsBackend chatRequest]> sampleHeap)
              sessionWorld (backend tunnelOptions) 0%nat
              (overlay wsBackend chatRequest) switching eq_refl
              (backend_resolves tunnelOptions chatRequest sampleHeap 0%nat
                 wsBackend eq_refl eq_refl)
              (lookup_insert_eq _ _ _) eq_refl eq_refl)
    as (_ & _ & _ & _ & H).
  destruct (H errBackend goingAway eq_refl) as (Hs & Hc & Hr).
  split; [exact Hs|]. split; [exact Hc|].
  apply Hr. split; [reflexivity|]. split; [reflexivity|discriminate].
Defined.

(** X12: per request the handler dials at most once and upgrades at most
    once, the upgrade only after the dial and the ping handler only after
    the upgrade: its events are nothing at all (a panicking resolver), one
    500 answer, or a dial followed by nothing, by the 503 answer, or by an
    upgrade, then possibly the ping handler, then possibly the
    deregistration. The handler itself never closes a connection. *)
Theorem handler_event_shapes w rw0 req (h : heap) env :
  let evs := events (ServeHTTP w rw0 req h env) in
  (evs = [] \/
   (exists msg, evs = [HttpError msg 500]) \/
   exists u hd,
     evs = [Dial (Dialer w) u hd] \/
     evs = [Dial (Dialer w) u hd; HttpError "Service Unavailable" 503] \/
     exists uh,
       evs = [Dial (Dialer w) u hd; Upgrade (Upgrader w) uh] \/
       evs = [Dial (Dialer w) u hd; Upgrade (Upgrader w) uh; SetPingHandler] \/
       evs = [Dial (Dialer w) u hd; Upgrade (Upgrader w) uh; SetPingHandler;
              RemoveConnection (UniqueId w)]) /\
  (forall c, ~ In (Close c) evs).
Proof.
  serve_cases w req h env.
  - split; [|intros c [H|[H|[]]]; discriminate H].
    right. right. eexists _, _. right. right. eexists. by left.
  - destruct (Manager w && (0 <? String.length (UniqueId w))%nat); simpl.
    + split; [|intros c [H|[H|[H|[H|[]]]]]; discriminate H].
      right. right. eexists _, _. right. right. eexists. right. by right.
    + split; [|intros c [H|[H|[H|[]]]]; discriminate H].
      right. right. eexists _, _. right. right. eexists. right. by left.
  - split; [|intros c [H|[H|[H|[]]]]; discriminate H].
    right. right. eexists _, _. right. right. eexists. right. by left.
  - split; [|intros c [H|[]]; discriminate H].
    right. right. eexists _, _. by left.
  - split; [|intros c [H|[H|[]]]; discriminate H].
    right. right. eexists _, _. right. by left.
  - split; [by left|]. by intros c [].
  - split; [|intros c [H|[]]; discriminate H]. right. left. by eexists.
  - split; [by left|]. by intros c [].
  - split; [|intros c [H|[]]; discriminate H]. right. left. by eexists.
Qed.




(** * Further properties of shutdown *)

(** X15: [NewProxy] leaves both stop channels nil and the handler never
    makes them, so on a proxy that is only ever built by [NewProxy] and
    served, [CloseProxy] panics in [close(w.StopBackendChan)], before any
    request and after every request, whatever happened in it. *)
Theorem close_proxy_panics_on_new_proxy options rw0 req (h : heap) env :
  snd (CloseProxy (NewProxy options)) = Panicked /\
  snd (CloseProxy (proxy (ServeHTTP (NewProxy options) rw0 req h env)))
    = Panicked.
Proof.
  split.
  - by apply CloseProxy_nil_channel.
  - apply CloseProxy_nil_channel.
    by destruct (ServeHTTP_keeps (NewProxy options) rw0 req h env) as [-> _].
Qed.

(** X16: [CloseProxy] panics whenever one of the two stop channels is nil
    or already closed; when it completes, both were open and both are
    closed afterwards. A backend stop channel that was open is closed even
    when the call then panics on the client one, and a call that panics on
    the backend stop channel leaves the client one as it was. Either way
    the call first closes the backend connection and then the client
    connection, each only if its handle is set, leaves both handles nil,
    and does not touch the connected flag. *)
Theorem close_proxy_needs_open_channels w :
  let w' := fst (fst (CloseProxy w)) in
  (StopBackendChan w <> OpenChan \/ StopClientChan w <> OpenChan ->
   snd (CloseProxy w) = Panicked) /\
  (snd (CloseProxy w) = Done ->
   StopBackendChan w = OpenChan /\ StopClientChan w = OpenChan /\
   StopBackendChan w' = ClosedChan /\ StopClientChan w' = ClosedChan) /\
  (StopBackendChan w = OpenChan -> StopBackendChan w' = ClosedChan) /\
  (StopBackendChan w <> OpenChan ->
   StopBackendChan w' = StopBackendChan w /\
   StopClientChan w' = StopClientChan w) /\
  snd (fst (CloseProxy w))
    = (match ToBackend w with Some c => [Close c] | None => [] end ++
       match ToClient w with Some c => [Close c] | None => [] end)%list /\
  ToClient w' = None /\ ToBackend w' = None /\
  Connected w' = Connected w.
Proof.
  unfold CloseProxy.
  destruct w as [? ? ? ? ? ? ? ? ? sc sb [c|] [b|]]; simpl;
    destruct sb, sc; simpl; intuition congruence.
Qed.

Lemma close_proxy_needs_open_channels_witness :
  StopClientChan halfStoppedProxy <> OpenChan /\
  snd (CloseProxy halfStoppedProxy) = Panicked /\
  StopBackendChan (fst (fst (CloseProxy halfStoppedProxy))) = ClosedChan /\
  snd (fst (CloseProxy halfStoppedProxy)) = [Close connBackend; Close connPub].
Proof.
  destruct (close_proxy_needs_open_channels halfStoppedProxy)
    as (Hp & _ & Hb & _ & Hev & _).
  assert (StopClientChan halfStoppedProxy <> OpenChan) as Hc by discriminate.
  split; [exact Hc|]. split; [exact (Hp (or_intror Hc))|].
  split; [exact (Hb eq_refl)|exact Hev].
Defined.

(** * Further properties of [copyHeader] *)

(** X17: copying a header map whose keys are canonical into a destination
    appends, key by key, the values of the source after the values the
    destination already has, and leaves the keys the source does not have
    as they were. *)
Theorem copy_header_appends (dst src : header) :
  canonicalKeys src = true ->
  forall k, Index (copyHeader dst src) k = (Index dst k ++ Index src k)%list.
Proof.
  intros Hc.
  assert (forall k vv, src !! k = Some vv -> CanonicalHeaderKey k = k) as Hk.
  { intros k vv. by apply canonicalKeys_lookup. }
  clear Hc. revert Hk. unfold copyHeader.
  apply (map_fold_weak_ind
           (fun (r : header) (m : header) =>
              (forall k vv, m !! k = Some vv -> CanonicalHeaderKey k = k) ->
              forall k, Index r k = (Index dst k ++ Index m k)%list)).
  - intros _ k. unfold Index at 3. rewrite lookup_empty. simpl.
    by rewrite app_nil_r.
  - intros i x m r Hi IH Hk k.
    assert (CanonicalHeaderKey i = i) as Hci.
    { apply (Hk i x). apply lookup_insert_eq. }
    assert (forall k, Index r k = (Index dst k ++ Index m k)%list) as IH'.
    { apply IH. intros j vv Hj. apply (Hk j vv).
      rewrite lookup_insert_ne; [done|]. intros ->. congruence. }
    rewrite Index_foldl_Add by done.
    destruct (decide (i = k)) as [->|Hik].
    + assert (Index (<[k:=x]> m) k = x) as ->
        by (unfold Index; by rewrite lookup_insert_eq).
      rewrite IH'.
      assert (Index m k = []) as -> by (unfold Index; by rewrite Hi).
      by rewrite app_nil_r.
    + assert (Index (<[i:=x]> m) k = Index m k) as ->
        by (unfold Index; by rewrite lookup_insert_ne).
      apply IH'.
Qed.

Lemma copy_header_appends_witness :
  canonicalKeys (Response.Header unauthorized) = true /\
  Index (copyHeader {[ "Content-Type" := ["text/html"]; "Vary" := ["Origin"] ]}
           (Response.Header unauthorized)) "Content-Type"
    = ["text/html"; "text/plain"].
Proof.
  split; [reflexivity|].
  rewrite (copy_header_appends _ (Response.Header unauthorized) eq_refl).
  by vm_compute.
Defined.

(** * Properties of [Init] *)

Lemma FormatInt_inj a b : logging.FormatInt a = logging.FormatInt b -> a = b.
Proof.
  unfold logging.FormatInt. intros H.
  assert (forall z, Z.to_int z <> Decimal.Pos Decimal.Nil /\
                    Z.to_int z <> Decimal.Neg Decimal.Nil) as Hn.
  { intros [|p|p]; simpl; split; try discriminate;
      intros [= Hp]; by apply (DecimalPos.Unsigned.to_uint_nonnil p). }
  apply (f_equal NilZero.int_of_string) in H.
  rewrite !NilZero.isi in H by apply Hn.
  injection H as H. apply (f_equal Z.of_int) in H.
  by rewrite !DecimalZ.of_to in H.
Qed.

(** X18: the calls of [Init] are, in this order and nothing else: the
    initialisation of the klog flags; one setting of the verbosity flag, to
    the decimal text of the given level with the default level 0 replaced
    by the standard level 2; when the debug file path is not empty, one
    setting of logtostderr to false and one of log_file to that path; the
    parsing of the command line. So each flag is set at most once, the
    verbosity exactly once and never to "0", no other flag is set, and a
    start-up with the default level makes the same calls as one with the
    standard level. *)
Theorem init_sets_verbosity_and_log_file init :
  let calls := logging.Init init in
  let level := if logging.LogLevel init =? 0 then 2 else logging.LogLevel init in
  let path := logging.DebugFilePath init in
  calls
    = (logging.InitFlags :: logging.FlagSet "v" (logging.FormatInt level) ::
       (if decide (path = "") then []
        else [logging.FlagSet "logtostderr" "false";
              logging.FlagSet "log_file" path]) ++ [logging.FlagParse])%list /\
  settings "v" calls = [logging.FormatInt level] /\
  logging.FormatInt level <> "0" /\
  settings "logtostderr" calls = (if decide (path = "") then [] else ["false"]) /\
  settings "log_file" calls = (if decide (path = "") then [] else [path]) /\
  (forall name,
      name <> "v" -> name <> "logtostderr" -> name <> "log_file" ->
      settings name calls = []) /\
  logging.Init (logging.mkInit logging.LogLevelDefault path)
    = logging.Init (logging.mkInit logging.LogLevelStandard path).
Proof.
  intros calls level path.
  assert (calls
            = (logging.InitFlags :: logging.FlagSet "v" (logging.FormatInt level) ::
               (if decide (path = "") then []
                else [logging.FlagSet "logtostderr" "false";
                      logging.FlagSet "log_file" path]) ++ [logging.FlagParse])%list)
    as Hc.
  { unfold calls, level, path, logging.Init, logging.LogLevelDefault,
      logging.LogLevelStandard.
    by destruct (logging.LogLevel init =? 0). }
  split; [exact Hc|]. rewrite Hc. clear Hc calls.
  split; [by destruct (decide (path = ""))|]. split.
  { change "0" with (logging.FormatInt 0). intros H.
    apply FormatInt_inj in H. unfold level in H.
    destruct (logging.LogLevel init =? 0) eqn:E; [done|].
    apply Z.eqb_neq in E. congruence. }
  split; [by destruct (decide (path = ""))|].
  split; [by destruct (decide (path = ""))|].
  split; [|reflexivity].
  intros name Hv Hs Hf. unfold settings. simpl.
  destruct (decide ("v" = name)) as [E|_]; [by subst|].
  destruct (decide (path = "")); simpl; [done|].
  destruct (decide ("logtostderr" = name)) as [E|_]; [by subst|].
  destruct (decide ("log_file" = name)) as [E|_]; [by subst|]. done.
Qed.

Lemma init_sets_verbosity_and_log_file_witness :
  logging.Init debugInit
    = [logging.InitFlags; logging.FlagSet "v" "2";
       logging.FlagSet "logtostderr" "false";
       logging.FlagSet "log_file" "/tmp/proxy.log"; logging.FlagParse] /\
  settings "v" (logging.Init debugInit) = ["2"] /\
  settings "alsologtostderr" (logging.Init debugInit) = [].
Proof.
  destruct (init_sets_verbosity_and_log_file debugInit)
    as (Hc & Hv & _ & _ & _ & Hn & _).
  split; [exact Hc|]. split; [exact Hv|].
  apply Hn; discriminate.
Defined.
